(** * vs/workbench/common/resources.ts

    A shallow embedding of [ResourceContextKey] (the eight context keys
    derived from the active resource) and of [DataUri.parseMetaData],
    together with the properties the specification states about them. *)

From Stdlib Require Import ZArith String Ascii List Bool Lia.
From stdpp Require Import base gmap strings list fin_maps.

Local Open Scope string_scope.

(** ** Values *)

(** The file is compiled without strict null checks: a value of declared
    type [T] is a [T], [undefined] or [null]. *)
Inductive nullable (A : Type) : Type :=
| undefined
| null
| val (a : A).
Arguments undefined {A}.
Arguments null {A}.
Arguments val {A} a.

Definition absent {A} (v : nullable A) : Prop :=
  match v with val _ => False | _ => True end.

(** The value of [v && f v] for an object-typed [v]: an absent [v] is
    the result itself. *)
Definition on_present {A B} (v : nullable A) (f : A -> nullable B)
  : nullable B :=
  match v with
  | undefined => undefined
  | null => null
  | val a => f a
  end.

(** Modelled from the spec: [URI] of [vs/base/common/uri], "an external URI
    value with at least scheme (string) and a filesystem-style path".
    These are the members this file reads; [fsPath] is a getter of the
    class whose computation lives with the class, so it is carried as a
    member here. *)
Record URI := { scheme : string; path : string; fsPath : string }.

Module Schemas.
(** Modelled from the spec: [Schemas.untitled] of
    [vs/base/common/network], the reserved scheme "untitled". *)
Definition untitled : string := "untitled".
End Schemas.

(** [vs/base/common/paths], taken as given. *)
Class Paths := {
  basename : string -> string;
  extname : string -> string
}.

(** [IModeService], restricted to the method called here and taken as
    given. *)
Class IModeService := {
  getModeIdByFilepathOrFirstLine : string -> nullable string
}.

(** [RawContextKey<T>]: a key name and its declared default. *)
Record RawContextKey (T : Type) := {
  key : string;
  defaultValue : nullable T
}.
Arguments key {T} _.
Arguments defaultValue {T} _.

(** ** The world the class runs in *)

(** The values the context key service holds for the eight keys, one
    field per key, named by the key string. *)
Record FactSet := {
  resourceScheme : nullable string;
  resourceFilename : nullable string;
  resourceLangId : nullable string;
  resource : nullable URI;
  resourceExtname : nullable string;
  resourceSet : nullable bool;
  isFileSystemResource : nullable bool;
  isFileSystemResourceOrUntitled : nullable bool
}.

(** Modelled from the spec: [IDisposable] of [vs/base/common/lifecycle]
    as returned by subscribing to an event; "Disposal: cancels the
    capability-change subscription".  Disposing it detaches one listener. *)
Inductive IDisposable := RemoveListener.

Record World := {
  facts : FactSet;
  (** keys written through a bound [IContextKey], oldest first *)
  writes : list string;
  (** [IFileService]: the answer of [canHandleResource] under the
      providers registered at this moment *)
  canHandle : URI -> bool;
  (** resources [canHandleResource] was asked about, oldest first *)
  queries : list URI;
  (** listeners attached to [onDidChangeFileSystemProviderRegistrations] *)
  listeners : nat;
  (** [Disposable._toDispose] *)
  _toDispose : list IDisposable
}.

Definition with_facts (c : FactSet) (w : World) : World :=
  {| facts := c; writes := writes w; canHandle := canHandle w;
     queries := queries w; listeners := listeners w;
     _toDispose := _toDispose w |}.

Definition with_writes (l : list string) (w : World) : World :=
  {| facts := facts w; writes := l; canHandle := canHandle w;
     queries := queries w; listeners := listeners w;
     _toDispose := _toDispose w |}.

Definition with_canHandle (f : URI -> bool) (w : World) : World :=
  {| facts := facts w; writes := writes w; canHandle := f;
     queries := queries w; listeners := listeners w;
     _toDispose := _toDispose w |}.

Definition with_queries (l : list URI) (w : World) : World :=
  {| facts := facts w; writes := writes w; canHandle := canHandle w;
     queries := l; listeners := listeners w;
     _toDispose := _toDispose w |}.

Definition with_listeners (n : nat) (w : World) : World :=
  {| facts := facts w; writes := writes w; canHandle := canHandle w;
     queries := queries w; listeners := n;
     _toDispose := _toDispose w |}.

Definition with_toDispose (l : list IDisposable) (w : World) : World :=
  {| facts := facts w; writes := writes w; canHandle := canHandle w;
     queries := queries w; listeners := listeners w;
     _toDispose := l |}.

(** ** Computations: state and exceptions *)

Inductive Exception := TypeError.

Inductive Completion (A : Type) : Type :=
| Normal (a : A) (w : World)
| Throw (e : Exception).
Arguments Normal {A} a w.
Arguments Throw {A} e.

Definition M (A : Type) : Type := World -> Completion A.

Definition ret {A} (a : A) : M A := fun w => Normal a w.

Definition bind {A B} (m : M A) (k : A -> M B) : M B :=
  fun w => match m w with
           | Normal a w' => k a w'
           | Throw e => Throw e
           end.

Definition throw {A} (e : Exception) : M A := fun _ => Throw e.

Definition gets {A} (f : World -> A) : M A := fun w => Normal (f w) w.

Definition modify (f : World -> World) : M unit := fun w => Normal tt (f w).

#[export] Instance M_ret : MRet M := @ret.
#[export] Instance M_bind : MBind M := fun A B k m => bind m k.

Fixpoint times (n : nat) (m : M unit) : M unit :=
  match n with
  | O => ret tt
  | S n' => m;; times n' m
  end.

Fixpoint forEach {A} (l : list A) (f : A -> M unit) : M unit :=
  match l with
  | [] => ret tt
  | x :: l' => f x;; forEach l' f
  end.

(** ** JavaScript operators, at the types they are used at *)

(** [value.member]: reading a member of [undefined] or [null] throws. *)
Definition member {A} (f : URI -> A) (value : nullable URI) : M A :=
  match value with
  | val u => ret (f u)
  | _ => throw TypeError
  end.

(** [value && rhs] for an object-typed [value]: an object is truthy, so the
    result is [rhs] when [value] is present and [value] itself otherwise;
    [rhs] is evaluated only in the first case. *)
Definition js_and {A B} (value : nullable A) (rhs : M (nullable B))
  : M (nullable B) :=
  match value with
  | undefined => ret undefined
  | null => ret null
  | val _ => rhs
  end.

(** [!!value] for an object-typed [value]. *)
Definition not_not {A} (value : nullable A) : bool :=
  match value with val _ => true | _ => false end.

(** [lhs || rhs] with a boolean-typed [lhs] and a boolean [rhs]: [lhs] is
    truthy exactly when it is [true]; [rhs] is evaluated otherwise. *)
Definition js_or (lhs : nullable bool) (rhs : M bool) : M bool :=
  match lhs with
  | val true => ret true
  | _ => rhs
  end.

(** [lhs === s] for a string literal [s]. *)
Definition strict_eq (lhs : nullable string) (s : string) : bool :=
  match lhs with
  | val x => String.eqb x s
  | _ => false
  end.

(** ** The context key service, the file service and disposables *)

(** A bound [IContextKey<T>]: the descriptor it was bound from and the
    place in the context it reads and writes. *)
Record IContextKey (T : Type) := {
  raw : RawContextKey T;
  peek : FactSet -> nullable T;
  poke : nullable T -> FactSet -> FactSet
}.
Arguments raw {T} _.
Arguments peek {T} _ _.
Arguments poke {T} _ _ _.

(** Modelled from the spec: [IContextKey.set] of the context key service,
    which is not part of this file; "each fact supports set(value),
    reset-to-default, and get()".  The write is recorded in [writes]. *)
Definition key_set {T} (k : IContextKey T) (v : nullable T) : M unit :=
  modify (fun w => with_facts (poke k v (facts w))
                     (with_writes (writes w ++ [key (raw k)]) w)).

(** Modelled from the spec: [IContextKey.reset], "reset-to-default": the
    key goes back to the default its [RawContextKey] declares. *)
Definition key_reset {T} (k : IContextKey T) : M unit :=
  key_set k (defaultValue (raw k)).

(** Modelled from the spec: [IContextKey.get], a pure read. *)
Definition key_get {T} (k : IContextKey T) : M (nullable T) :=
  gets (fun w => peek k (facts w)).

(** Modelled from the spec: [RawContextKey.bindTo]; "the Fact Set is
    created empty at synchronizer construction", every key at its
    declared default. *)
Definition bindTo {T} (k : IContextKey T) : M unit :=
  key_reset k.

(** [IFileService.canHandleResource(resource)].  Its parameter is declared
    [URI]; the service reads the resource's members, so an absent argument
    throws like any other member read.  The query is recorded. *)
Definition canHandleResource (r : nullable URI) : M bool :=
  u ← member (fun u => u) r;
  modify (fun w => with_queries (queries w ++ [u]) w);;
  gets (fun w => canHandle w u).

(** Modelled from the spec: subscribing to an event of
    [vs/base/common/event], which is not part of this file.  It attaches
    the listener and returns the disposable that detaches it. *)
Definition subscribe : M IDisposable :=
  modify (fun w => with_listeners (S (listeners w)) w);;
  ret RemoveListener.

(** Modelled from the spec: [Disposable._register] of
    [vs/base/common/lifecycle]: the disposable is kept until [dispose]. *)
Definition _register (d : IDisposable) : M unit :=
  modify (fun w => with_toDispose (_toDispose w ++ [d]) w).

(** Modelled from the spec: disposing the handle of a subscription;
    "cancels the capability-change subscription". *)
Definition dispose_one (d : IDisposable) : M unit :=
  match d with
  | RemoveListener =>
      modify (fun w => with_listeners (Nat.pred (listeners w)) w)
  end.

(** Modelled from the spec: [Disposable.dispose], inherited by
    [ResourceContextKey]: every registered disposable is disposed and the
    list is emptied. *)
Definition dispose : M unit :=
  l ← gets _toDispose;
  forEach l dispose_one;;
  modify (with_toDispose []).

(** Modelled from the spec: the file service firing
    [onDidChangeFileSystemProviderRegistrations]: every attached listener
    runs to completion, one after the other. *)
Definition fire (listener : M unit) : M unit :=
  n ← gets listeners;
  times n listener.

(** ** class ResourceContextKey *)

Module ResourceContextKey.

(** The static descriptors: key name and declared default. *)
Definition Scheme : RawContextKey string :=
  {| key := "resourceScheme"; defaultValue := undefined |}.
Definition Filename : RawContextKey string :=
  {| key := "resourceFilename"; defaultValue := undefined |}.
Definition LangId : RawContextKey string :=
  {| key := "resourceLangId"; defaultValue := undefined |}.
Definition Resource : RawContextKey URI :=
  {| key := "resource"; defaultValue := undefined |}.
Definition Extension : RawContextKey string :=
  {| key := "resourceExtname"; defaultValue := undefined |}.
Definition HasResource : RawContextKey bool :=
  {| key := "resourceSet"; defaultValue := val false |}.
Definition IsFileSystemResource : RawContextKey bool :=
  {| key := "isFileSystemResource"; defaultValue := val false |}.
Definition IsFileSystemResourceOrUntitled : RawContextKey bool :=
  {| key := "isFileSystemResourceOrUntitled"; defaultValue := val false |}.

(** The private members: each descriptor bound to its place in the
    context. *)
Definition _resourceKey : IContextKey URI :=
  {| raw := Resource; peek := resource;
     poke v c :=
       {| resourceScheme := resourceScheme c;
          resourceFilename := resourceFilename c;
          resourceLangId := resourceLangId c;
          resource := v;
          resourceExtname := resourceExtname c;
          resourceSet := resourceSet c;
          isFileSystemResource := isFileSystemResource c;
          isFileSystemResourceOrUntitled := isFileSystemResourceOrUntitled c |} |}.

Definition _schemeKey : IContextKey string :=
  {| raw := Scheme; peek := resourceScheme;
     poke v c :=
       {| resourceScheme := v;
          resourceFilename := resourceFilename c;
          resourceLangId := resourceLangId c;
          resource := resource c;
          resourceExtname := resourceExtname c;
          resourceSet := resourceSet c;
          isFileSystemResource := isFileSystemResource c;
          isFileSystemResourceOrUntitled := isFileSystemResourceOrUntitled c |} |}.

Definition _filenameKey : IContextKey string :=
  {| raw := Filename; peek := resourceFilename;
     poke v c :=
       {| resourceScheme := resourceScheme c;
          resourceFilename := v;
          resourceLangId := resourceLangId c;
          resource := resource c;
          resourceExtname := resourceExtname c;
          resourceSet := resourceSet c;
          isFileSystemResource := isFileSystemResource c;
          isFileSystemResourceOrUntitled := isFileSystemResourceOrUntitled c |} |}.

Definition _langIdKey : IContextKey string :=
  {| raw := LangId; peek := resourceLangId;
     poke v c :=
       {| resourceScheme := resourceScheme c;
          resourceFilename := resourceFilename c;
          resourceLangId := v;
          resource := resource c;
          resourceExtname := resourceExtname c;
          resourceSet := resourceSet c;
          isFileSystemResource := isFileSystemResource c;
          isFileSystemResourceOrUntitled := isFileSystemResourceOrUntitled c |} |}.

Definition _extensionKey : IContextKey string :=
  {| raw := Extension; peek := resourceExtname;
     poke v c :=
       {| resourceScheme := resourceScheme c;
          resourceFilename := resourceFilename c;
          resourceLangId := resourceLangId c;
          resource := resource c;
          resourceExtname := v;
          resourceSet := resourceSet c;
          isFileSystemResource := isFileSystemResource c;
          isFileSystemResourceOrUntitled := isFileSystemResourceOrUntitled c |} |}.

Definition _hasResource : IContextKey bool :=
  {| raw := HasResource; peek := resourceSet;
     poke v c :=
       {| resourceScheme := resourceScheme c;
          resourceFilename := resourceFilename c;
          resourceLangId := resourceLangId c;
          resource := resource c;
          resourceExtname := resourceExtname c;
          resourceSet := v;
          isFileSystemResource := isFileSystemResource c;
          isFileSystemResourceOrUntitled := isFileSystemResourceOrUntitled c |} |}.

Definition _isfileSystemResource : IContextKey bool :=
  {| raw := IsFileSystemResource; peek := isFileSystemResource;
     poke v c :=
       {| resourceScheme := resourceScheme c;
          resourceFilename := resourceFilename c;
          resourceLangId := resourceLangId c;
          resource := resource c;
          resourceExtname := resourceExtname c;
          resourceSet := resourceSet c;
          isFileSystemResource := v;
          isFileSystemResourceOrUntitled := isFileSystemResourceOrUntitled c |} |}.

Definition _isFileSystemResourceOrUntitled : IContextKey bool :=
  {| raw := IsFileSystemResourceOrUntitled;
     peek := isFileSystemResourceOrUntitled;
     poke v c :=
       {| resourceScheme := resourceScheme c;
          resourceFilename := resourceFilename c;
          resourceLangId := resourceLangId c;
          resource := resource c;
          resourceExtname := resourceExtname c;
          resourceSet := resourceSet c;
          isFileSystemResource := isFileSystemResource c;
          isFileSystemResourceOrUntitled := v |} |}.

Section Methods.
Context {paths : Paths} {modeService : IModeService}.

(** The listener the constructor attaches to
    [onDidChangeFileSystemProviderRegistrations] (lines 50-54). *)
Definition onDidChangeFileSystemProviderRegistrations : M unit :=
  resource ← key_get _resourceKey;
  v ← js_and resource (b ← canHandleResource resource; ret (val b));
  key_set _isfileSystemResource v;;
  a ← key_get _isfileSystemResource;
  b ← js_or a (s ← key_get _schemeKey; ret (strict_eq s Schemas.untitled));
  key_set _isFileSystemResourceOrUntitled (val b).

Definition constructor : M unit :=
  bindTo _schemeKey;;
  bindTo _filenameKey;;
  bindTo _langIdKey;;
  bindTo _resourceKey;;
  bindTo _extensionKey;;
  bindTo _hasResource;;
  bindTo _isfileSystemResource;;
  bindTo _isFileSystemResourceOrUntitled;;
  d ← subscribe;
  _register d.

Definition set (value : nullable URI) : M unit :=
  key_set _resourceKey value;;
  v ← js_and value (s ← member scheme value; ret (val s));
  key_set _schemeKey v;;
  v ← js_and value (p ← member fsPath value; ret (val (basename p)));
  key_set _filenameKey v;;
  v ← js_and value (p ← member fsPath value;
                    ret (getModeIdByFilepathOrFirstLine p));
  key_set _langIdKey v;;
  v ← js_and value (p ← member fsPath value; ret (val (extname p)));
  key_set _extensionKey v;;
  key_set _hasResource (val (not_not value));;
  v ← js_and value (b ← canHandleResource value; ret (val b));
  key_set _isfileSystemResource v;;
  a ← key_get _isfileSystemResource;
  b ← js_or a (s ← key_get _schemeKey; ret (strict_eq s Schemas.untitled));
  key_set _isFileSystemResourceOrUntitled (val b).

Definition reset : M unit :=
  key_reset _schemeKey;;
  key_reset _langIdKey;;
  key_reset _resourceKey;;
  key_reset _langIdKey;;
  key_reset _extensionKey;;
  key_reset _hasResource.

Definition get : M (nullable URI) :=
  key_get _resourceKey.

(** The file service changing its provider registrations to ones under
    which [canHandleResource] answers [answer], and then notifying. *)
Definition registrationsChanged (answer : URI -> bool) : M unit :=
  modify (with_canHandle answer);;
  fire onDidChangeFileSystemProviderRegistrations.

End Methods.
End ResourceContextKey.

(** ** String.prototype, at the arguments used by [DataUri]

    Strings are sequences of code units; the separators the source passes
    are one code unit long and are taken as such. *)

Module JsString.

Fixpoint find_first (c : ascii) (s : string) : option nat :=
  match s with
  | EmptyString => None
  | String a s' =>
      if Ascii.eqb a c then Some O else S <$> find_first c s'
  end.

Fixpoint find_last (c : ascii) (s : string) : option nat :=
  match s with
  | EmptyString => None
  | String a s' =>
      match find_last c s' with
      | Some i => Some (S i)
      | None => if Ascii.eqb a c then Some O else None
      end
  end.

(** [s.indexOf(c)]: the first position of [c], or -1. *)
Definition indexOf (s : string) (c : ascii) : Z :=
  match find_first c s with
  | Some i => Z.of_nat i
  | None => (-1)%Z
  end.

(** [s.lastIndexOf(c)]: the last position of [c], or -1. *)
Definition lastIndexOf (s : string) (c : ascii) : Z :=
  match find_last c s with
  | Some i => Z.of_nat i
  | None => (-1)%Z
  end.

(** [s.substring(start, end)]: both indices are clamped to [0, length],
    and swapped when the first exceeds the second. *)
Definition substring (s : string) (start end_ : Z) : string :=
  let len := Z.of_nat (String.length s) in
  let finalStart := Z.min (Z.max start 0) len in
  let finalEnd := Z.min (Z.max end_ 0) len in
  let from := Z.min finalStart finalEnd in
  let to := Z.max finalStart finalEnd in
  String.substring (Z.to_nat from) (Z.to_nat (to - from)) s.

(** [s.split(sep)]: the pieces between the occurrences of [sep]; never
    empty: the empty string splits to one empty piece. *)
Fixpoint split (s : string) (sep : ascii) : list string :=
  match s with
  | EmptyString => [EmptyString]
  | String a s' =>
      if Ascii.eqb a sep then EmptyString :: split s' sep
      else match split s' sep with
           | piece :: pieces => String a piece :: pieces
           | [] => [String a EmptyString]
           end
  end.

(** [array[i]]: [undefined] past the end. *)
Definition at_index (l : list string) (i : nat) : nullable string :=
  match l !! i with
  | Some x => val x
  | None => undefined
  end.

(** Truthiness of a string: every string but the empty one. *)
Definition truthy (s : string) : bool :=
  negb (String.eqb s EmptyString).

End JsString.

(** ** namespace DataUri *)

Module DataUri.
Import JsString.

Definition META_DATA_LABEL : string := "label".
Definition META_DATA_DESCRIPTION : string := "description".
Definition META_DATA_SIZE : string := "size".
Definition META_DATA_MIME : string := "mime".

(** The body of the [forEach] callback (lines 98-103): the property is
    split on [':'], the first two pieces are the key and the value, and
    the entry is stored when both are truthy. *)
Definition addProperty (metadata : gmap string string) (property : string)
  : gmap string string :=
  let parts := split property ":" in
  match at_index parts 0, at_index parts 1 with
  | val key, val value =>
      if truthy key && truthy value then <[key := value]> metadata
      else metadata
  | _, _ => metadata
  end.

(** A property the callback does not store: its key is empty, or its
    value is missing or empty. *)
Definition malformed (property : string) : Prop :=
  let parts := split property ":" in
  at_index parts 0 = val EmptyString ∨
  at_index parts 1 = undefined ∨
  at_index parts 1 = val EmptyString.

Definition parseMetaData (dataUri : URI) : gmap string string :=
  let metadata : gmap string string := ∅ in
  let meta :=
    substring (path dataUri) (indexOf (path dataUri) ";" + 1)
      (lastIndexOf (path dataUri) ";") in
  let metadata := foldl addProperty metadata (split meta ";") in
  let mime := substring (path dataUri) 0 (indexOf (path dataUri) ";") in
  if truthy mime then <[META_DATA_MIME := mime]> metadata else metadata.

End DataUri.

(** ** The reference algorithm of the specification (section 4.2)

    Written from the specification's three steps, on the structure of the
    path rather than on indices, to be compared with
    [DataUri.parseMetaData]. *)

Module Reference.

(** The part of [s] before the first [c] and the part after it. *)
Fixpoint cut_first (c : ascii) (s : string) : option (string * string) :=
  match s with
  | EmptyString => None
  | String a s' =>
      if Ascii.eqb a c then Some (EmptyString, s')
      else match cut_first c s' with
           | Some (l, r) => Some (String a l, r)
           | None => None
           end
  end.

(** The part of [s] before the last [c] and the part after it. *)
Fixpoint cut_last (c : ascii) (s : string) : option (string * string) :=
  match s with
  | EmptyString => None
  | String a s' =>
      match cut_last c s' with
      | Some (l, r) => Some (String a l, r)
      | None => if Ascii.eqb a c then Some (EmptyString, s') else None
      end
  end.

(** Step 1: "the substring strictly between the first [;] and the last
    [;]"; empty when the path has fewer than two. *)
Definition between (p : string) : string :=
  match cut_first ";" p with
  | Some (_, rest) =>
      match cut_last ";" rest with
      | Some (mid, _) => mid
      | None => EmptyString
      end
  | None => EmptyString
  end.

(** Step 3: "the substring before the first [;]"; empty when there is
    none. *)
Definition mime (p : string) : string :=
  match cut_first ";" p with
  | Some (m, _) => m
  | None => EmptyString
  end.

(** Step 2, as the specification words it: "split once on [:]". *)
Definition split_once (token : string) : option (string * string) :=
  cut_first ":" token.

(** Step 2, as the source does it: split on every [:], the first two
    pieces are the key and the value. *)
Definition first_two_pieces (token : string) : option (string * string) :=
  match JsString.split token ":" with
  | k :: v :: _ => Some (k, v)
  | _ => None
  end.

Definition nonempty (s : string) : bool :=
  match s with EmptyString => false | String _ _ => true end.

Definition insert_token (key_value : string -> option (string * string))
  (m : gmap string string) (token : string) : gmap string string :=
  match key_value token with
  | Some (k, v) => if nonempty k && nonempty v then <[k := v]> m else m
  | None => m
  end.

Definition parse (key_value : string -> option (string * string))
  (p : string) : gmap string string :=
  let m := foldl (insert_token key_value) ∅ (JsString.split (between p) ";") in
  if nonempty (mime p) then <["mime" := mime p]> m else m.

(** The three steps of section 4.2. *)
Definition parseMetaData_spec (p : string) : gmap string string :=
  parse split_once p.

(** The same steps with step 2 reading the first two [:]-separated
    pieces. *)
Definition parseMetaData_amended (p : string) : gmap string string :=
  parse first_two_pieces p.

End Reference.

(** ** Runs of the class *)

Section Runs.
Context {paths : Paths} {modeService : IModeService}.

(** The host before the class is constructed: no key is bound, nothing is
    subscribed. *)
Definition boot (answer : URI -> bool) : World :=
  {| facts :=
       {| resourceScheme := undefined; resourceFilename := undefined;
          resourceLangId := undefined; resource := undefined;
          resourceExtname := undefined; resourceSet := undefined;
          isFileSystemResource := undefined;
          isFileSystemResourceOrUntitled := undefined |};
     writes := []; canHandle := answer; queries := [];
     listeners := 0; _toDispose := [] |}.

(** The world a computation leaves behind (the given one if it throws). *)
Definition after (m : M unit) (w : World) : World :=
  match m w with
  | Normal _ w' => w'
  | Throw _ => w
  end.

(** What can happen to a constructed, live instance. *)
Inductive Op :=
| CallSet (value : nullable URI)
| CallReset
| Notify (answer : URI -> bool).

Definition run (op : Op) : M unit :=
  match op with
  | CallSet value => ResourceContextKey.set value
  | CallReset => ResourceContextKey.reset
  | Notify answer => ResourceContextKey.registrationsChanged answer
  end.

Inductive reachable : World -> Prop :=
| reachable_new answer w :
    ResourceContextKey.constructor (boot answer) = Normal tt w ->
    reachable w
| reachable_step op w w' :
    reachable w -> run op w = Normal tt w' -> reachable w'.

(** The declared defaults of the eight keys. *)
Definition defaults : FactSet :=
  {| resourceScheme := defaultValue ResourceContextKey.Scheme;
     resourceFilename := defaultValue ResourceContextKey.Filename;
     resourceLangId := defaultValue ResourceContextKey.LangId;
     resource := defaultValue ResourceContextKey.Resource;
     resourceExtname := defaultValue ResourceContextKey.Extension;
     resourceSet := defaultValue ResourceContextKey.HasResource;
     isFileSystemResource :=
       defaultValue ResourceContextKey.IsFileSystemResource;
     isFileSystemResourceOrUntitled :=
       defaultValue ResourceContextKey.IsFileSystemResourceOrUntitled |}.

(** Truthiness of a boolean-typed value. *)
Definition is_truthy (v : nullable bool) : bool :=
  match v with val true => true | _ => false end.

(** Invariant I2 on the stored values. *)
Definition I2 (c : FactSet) : Prop :=
  isFileSystemResourceOrUntitled c =
  val (is_truthy (isFileSystemResource c)
       || strict_eq (resourceScheme c) Schemas.untitled).

End Runs.

(** Stand-ins for the injected services, used to run the class on concrete
    resources. *)
Definition last_piece (s : string) (sep : ascii) : string :=
  List.last (JsString.split s sep) EmptyString.

Definition test_paths : Paths :=
  {| basename p := last_piece p "/";
     extname p :=
       match JsString.split (last_piece p "/") "." with
       | _ :: _ :: _ => String "." (last_piece p ".")
       | _ => EmptyString
       end |}.

Definition test_modes : IModeService :=
  {| getModeIdByFilepathOrFirstLine p :=
       if String.eqb (last_piece p ".") "ts" then val "typescript" else null |}.

Definition file_only (u : URI) : bool := String.eqb (scheme u) "file".

Definition no_provider (u : URI) : bool := false.

Definition a_file : URI :=
  {| scheme := "file"; path := "/src/a.ts"; fsPath := "/src/a.ts" |}.

Definition data_uri (p : string) : URI :=
  {| scheme := "data"; path := p; fsPath := p |}.

Definition an_untitled : URI :=
  {| scheme := "untitled"; path := "Untitled-1"; fsPath := "Untitled-1" |}.

(** A fresh instance, and one that holds a file. *)

Definition fresh : World :=
  after (ResourceContextKey.constructor) (boot no_provider).

Definition holding_a_file : World :=
  after (ResourceContextKey.set (paths := test_paths)
           (modeService := test_modes) (val a_file)) fresh.

(** ** Further vocabulary for the properties below *)

(** The facts [set] derives from its argument under a given answer of the
    file service. *)
Definition derived `{!Paths, !IModeService} (value : nullable URI)
    (answer : URI -> bool) : FactSet :=
  {| resourceScheme := on_present value (fun u => val (scheme u));
     resourceFilename :=
       on_present value (fun u => val (basename (fsPath u)));
     resourceLangId :=
       on_present value (fun u => getModeIdByFilepathOrFirstLine (fsPath u));
     resource := value;
     resourceExtname :=
       on_present value (fun u => val (extname (fsPath u)));
     resourceSet := val (not_not value);
     isFileSystemResource := on_present value (fun u => val (answer u));
     isFileSystemResourceOrUntitled :=
       val (match value with
            | val u => answer u || String.eqb (scheme u) Schemas.untitled
            | _ => false
            end) |}.

(** The resources an operation makes the class ask the file service
    about, given the resource held when it starts. *)
Definition asked (op : Op) (held : nullable URI) : list URI :=
  match op with
  | CallSet (val u) => [u]
  | CallSet _ => []
  | CallReset => []
  | Notify _ => match held with val u => [u] | _ => [] end
  end.

(** A world in which a file was set and then reset. *)
Definition after_reset : World :=
  after ResourceContextKey.reset holding_a_file.

(** A world holding an untitled document, with a provider for files only. *)
Definition holding_untitled : World :=
  after (ResourceContextKey.set (paths := test_paths)
           (modeService := test_modes) (val an_untitled))
    (after ResourceContextKey.constructor (boot file_only)).

(** [c] does not occur in [s]. *)
Definition without (c : ascii) (s : string) : Prop :=
  JsString.find_first c s = None.

(** The shape the source documents for the path of a data URI:
    [MIME;PROPERTY;...;PROPERTY;PAYLOAD]. *)
Fixpoint properties_text (properties : list string) : string :=
  match properties with
  | [] => EmptyString
  | p :: ps => p ++ String ";" (properties_text ps)
  end.

Definition data_path (mime : string) (properties : list string)
    (payload : string) : string :=
  mime ++ String ";" (properties_text properties ++ payload).

(** A property [KEY:VALUE]. *)
Definition property_text (kv : string * string) : string :=
  kv.1 ++ String ":" kv.2.

(** A key or value that can be written into a property as it is: not
    empty, and free of both separators. *)
Definition plain (s : string) : Prop :=
  s ≠ EmptyString ∧ without ";" s ∧ without ":" s.

(** [Map.set] of a pair. *)
Definition store (m : gmap string string) (kv : string * string)
  : gmap string string :=
  <[kv.1 := kv.2]> m.

(** What an entry stored by the callback looks like. *)
Definition token_entry (k v : string) : Prop :=
  k ≠ EmptyString ∧ v ≠ EmptyString ∧
  without ";" k ∧ without ";" v ∧ without ":" k ∧ without ":" v.

(** The path in the comment of the source. *)
Definition documented_path : string :=
  "image/png;size:2313;label:SomeLabel;description:SomeDescription;base64,77+9UE5".

(** The value of a property, as the callback reads it: the text between
    the first [:] and the next one, or the end. *)
Definition value_text (rest : string) : string :=
  match Reference.cut_first ":" rest with
  | Some (v, _) => v
  | None => rest
  end.

(** A property with a missing key or a missing value: it has no [:], or
    nothing before its first [:], or nothing between that [:] and the next
    one (or the end). *)
Definition missing_key_or_value (property : string) : Prop :=
  match Reference.cut_first ":" property with
  | None => True
  | Some (k, rest) => k = EmptyString ∨ value_text rest = EmptyString
  end.

(** What stands between two [;] of a path: a property with a missing key
    or value, or a well-formed pair. *)
Definition item : Type := string + string * string.

Definition item_text (i : item) : string :=
  match i with
  | inl property => property
  | inr kv => property_text kv
  end.

Definition item_ok (i : item) : Prop :=
  match i with
  | inl property => without ";" property ∧ missing_key_or_value property
  | inr kv => plain kv.1 ∧ plain kv.2
  end.

(** The pairs among the items, in order. *)
Fixpoint item_pairs (items : list item) : list (string * string) :=
  match items with
  | [] => []
  | inl _ :: rest => item_pairs rest
  | inr kv :: rest => kv :: item_pairs rest
  end.

(** * Properties of [ResourceContextKey] *)

Section ResourceContextKeyFacts.
Context {paths : Paths} {modeService : IModeService}.

Ltac unfold_js :=
  unfold ResourceContextKey.set, ResourceContextKey.reset,
    ResourceContextKey.get, ResourceContextKey.constructor,
    ResourceContextKey.registrationsChanged,
    ResourceContextKey.onDidChangeFileSystemProviderRegistrations,
    dispose, fire, bindTo, subscribe, _register, canHandleResource,
    key_reset, key_set, key_get, member, js_and, js_or, not_not,
    modify, gets, throw,
    mbind, M_bind, bind, mret, M_ret, ret.

Ltac fields := eexists; repeat split; cbn; rewrite <- ?app_assoc; reflexivity.

(** What the listener does to an arbitrary world: it completes normally,
    asks the file service only about a present resource, writes the two
    file-system keys and nothing else. *)
Lemma listener_effect (w : World) :
  ∃ w',
    ResourceContextKey.onDidChangeFileSystemProviderRegistrations w
      = Normal tt w' ∧
    isFileSystemResource (facts w') =
      on_present (resource (facts w)) (fun u => val (canHandle w u)) ∧
    I2 (facts w') ∧
    resource (facts w') = resource (facts w) ∧
    resourceScheme (facts w') = resourceScheme (facts w) ∧
    resourceFilename (facts w') = resourceFilename (facts w) ∧
    resourceLangId (facts w') = resourceLangId (facts w) ∧
    resourceExtname (facts w') = resourceExtname (facts w) ∧
    resourceSet (facts w') = resourceSet (facts w) ∧
    writes w' = (writes w ++
      ["isFileSystemResource"; "isFileSystemResourceOrUntitled"])%list ∧
    canHandle w' = canHandle w ∧
    listeners w' = listeners w ∧
    _toDispose w' = _toDispose w.
Proof.
  unfold_js. unfold I2.
  destruct w as [c ws f qs n ds]; cbn.
  destruct (resource c) as [| |u] eqn:E; cbn; rewrite ?E.
  - fields.
  - fields.
  - destruct (f u); cbn; fields.
Qed.

(** What [set] does to an arbitrary world, for any argument. *)
Lemma set_effect (value : nullable URI) (w : World) :
  ∃ w',
    ResourceContextKey.set value w = Normal tt w' ∧
    resource (facts w') = value ∧
    resourceScheme (facts w') =
      on_present value (fun u => val (scheme u)) ∧
    resourceFilename (facts w') =
      on_present value (fun u => val (basename (fsPath u))) ∧
    resourceLangId (facts w') =
      on_present value (fun u => getModeIdByFilepathOrFirstLine (fsPath u)) ∧
    resourceExtname (facts w') =
      on_present value (fun u => val (extname (fsPath u))) ∧
    resourceSet (facts w') = val (not_not value) ∧
    isFileSystemResource (facts w') =
      on_present value (fun u => val (canHandle w u)) ∧
    I2 (facts w') ∧
    writes w' = (writes w ++
      ["resource"; "resourceScheme"; "resourceFilename"; "resourceLangId";
       "resourceExtname"; "resourceSet"; "isFileSystemResource";
       "isFileSystemResourceOrUntitled"])%list ∧
    queries w' =
      match value with
      | val u => (queries w ++ [u])%list
      | _ => queries w
      end ∧
    canHandle w' = canHandle w ∧
    listeners w' = listeners w ∧
    _toDispose w' = _toDispose w.
Proof.
  unfold_js. unfold I2.
  destruct w as [c ws f qs n ds].
  destruct value as [| |u]; cbn.
  - fields.
  - fields.
  - destruct (f u); cbn; fields.
Qed.

(** What [reset] does to an arbitrary world. *)
Lemma reset_effect (w : World) :
  ∃ w',
    ResourceContextKey.reset w = Normal tt w' ∧
    resourceScheme (facts w') = undefined ∧
    resourceLangId (facts w') = undefined ∧
    resource (facts w') = undefined ∧
    resourceExtname (facts w') = undefined ∧
    resourceSet (facts w') = val false ∧
    resourceFilename (facts w') = resourceFilename (facts w) ∧
    isFileSystemResource (facts w') = isFileSystemResource (facts w) ∧
    isFileSystemResourceOrUntitled (facts w') =
      isFileSystemResourceOrUntitled (facts w) ∧
    queries w' = queries w ∧
    canHandle w' = canHandle w ∧
    listeners w' = listeners w ∧
    _toDispose w' = _toDispose w.
Proof.
  unfold_js. destruct w as [c ws f qs n ds]; cbn. fields.
Qed.

(** A notification reaching a single attached listener runs it once, under
    the new registrations. *)
Lemma registrationsChanged_attached (answer : URI -> bool) (w : World) :
  listeners w = 1 ->
  ResourceContextKey.registrationsChanged answer w =
  ResourceContextKey.onDidChangeFileSystemProviderRegistrations
    (with_canHandle answer w).
Proof.
  intros Hn.
  destruct (listener_effect (with_canHandle answer w)) as (w' & Hrun & _).
  unfold ResourceContextKey.registrationsChanged, fire, modify, gets,
    mbind, M_bind, bind.
  cbn. rewrite Hn. cbn. unfold mbind, M_bind, bind. rewrite Hrun. reflexivity.
Qed.

(** A notification with no listener attached reaches nobody. *)
Lemma registrationsChanged_detached (answer : URI -> bool) (w : World) :
  listeners w = 0 ->
  ResourceContextKey.registrationsChanged answer w =
  Normal tt (with_canHandle answer w).
Proof.
  intros Hn.
  unfold ResourceContextKey.registrationsChanged, fire, modify, gets,
    mbind, M_bind, bind.
  cbn. rewrite Hn. reflexivity.
Qed.

(** The constructor completes and leaves every key at its declared
    default, with one listener attached and its disposable registered. *)
Lemma constructor_effect (answer : URI -> bool) :
  ∃ w,
    ResourceContextKey.constructor (boot answer) = Normal tt w ∧
    facts w = defaults ∧
    listeners w = 1 ∧
    _toDispose w = [RemoveListener].
Proof. unfold_js. cbn. fields. Qed.

(** Every operation of a live instance completes normally. *)
Lemma run_total (op : Op) (w : World) :
  listeners w = 1 ->
  ∃ w', run op w = Normal tt w' ∧
        listeners w' = 1 ∧ _toDispose w' = _toDispose w.
Proof.
  intros Hn. destruct op as [value| |answer]; cbn.
  - destruct (set_effect value w) as (w' & Hrun & Hrest).
    exists w'. rewrite Hrun. intuition congruence.
  - destruct (reset_effect w) as (w' & Hrun & Hrest).
    exists w'. rewrite Hrun. intuition congruence.
  - rewrite registrationsChanged_attached by assumption.
    destruct (listener_effect (with_canHandle answer w)) as (w' & Hrun & Hrest).
    exists w'. rewrite Hrun. cbn in Hrest. intuition congruence.
Qed.

(** A reachable world has exactly the constructor's listener attached, and
    its disposable is the one registered. *)
Lemma reachable_live (w : World) :
  reachable w -> listeners w = 1 ∧ _toDispose w = [RemoveListener].
Proof.
  induction 1 as [answer w Hnew | op w w' Hreach [IHn IHd] Hstep].
  - destruct (constructor_effect answer) as (w0 & Hrun & _ & Hn & Hd).
    rewrite Hrun in Hnew. injection Hnew as <-. auto.
  - destruct (run_total op w IHn) as (w0 & Hrun & Hn & Hd).
    rewrite Hrun in Hstep. injection Hstep as <-. split; congruence.
Qed.

(** Disposing a reachable instance completes, detaches the listener and
    writes no key. *)
Lemma dispose_effect (w : World) :
  reachable w ->
  ∃ w', dispose w = Normal tt w' ∧
        listeners w' = 0 ∧ _toDispose w' = [] ∧
        facts w' = facts w ∧ writes w' = writes w.
Proof.
  intros Hreach. destruct (reachable_live w Hreach) as [Hn Hd].
  unfold_js. destruct w as [c ws f qs n ds]; cbn in *. subst.
  cbn. fields.
Qed.

(** With no listener attached every operation still completes, and none
    attaches one. *)
Lemma run_detached (op : Op) (w : World) :
  listeners w = 0 ->
  ∃ w', run op w = Normal tt w' ∧ listeners w' = 0.
Proof.
  intros Hn. destruct op as [value| |answer]; cbn.
  - destruct (set_effect value w) as (w' & Hrun & Hrest).
    exists w'. rewrite Hrun. intuition congruence.
  - destruct (reset_effect w) as (w' & Hrun & Hrest).
    exists w'. rewrite Hrun. intuition congruence.
  - rewrite registrationsChanged_detached by assumption. eauto.
Qed.

Lemma forEach_detached (ops : list Op) (w : World) :
  listeners w = 0 ->
  ∃ w', forEach ops run w = Normal tt w' ∧ listeners w' = 0.
Proof.
  revert w. induction ops as [|op ops IH]; intros w Hn; cbn.
  - exists w. auto.
  - destruct (run_detached op w Hn) as (w1 & Hrun & Hn1).
    destruct (IH w1 Hn1) as (w2 & Hrest & Hn2).
    exists w2. unfold mbind, M_bind, bind. rewrite Hrun. auto.
Qed.

(** Invariant I2 holds on construction and after every [set] and every
    notification. *)
Lemma I2_established (w w' : World) (op : Op) :
  reachable w ->
  op ≠ CallReset ->
  run op w = Normal tt w' ->
  I2 (facts w').
Proof.
  intros Hreach Hop Hstep.
  destruct (reachable_live w Hreach) as [Hn _].
  destruct op as [value| |answer]; cbn in Hstep; [|congruence|].
  - destruct (set_effect value w)
      as (w0 & Hrun & _ & _ & _ & _ & _ & _ & _ & Hinv & _).
    congruence.
  - rewrite registrationsChanged_attached in Hstep by assumption.
    destruct (listener_effect (with_canHandle answer w))
      as (w0 & Hrun & _ & Hinv & _).
    congruence.
Qed.

Lemma I2_constructed (answer : URI -> bool) (w : World) :
  ResourceContextKey.constructor (boot answer) = Normal tt w ->
  I2 (facts w).
Proof.
  intros Hnew.
  destruct (constructor_effect answer) as (w0 & Hrun & Hctx & _).
  assert (w = w0) as -> by congruence.
  rewrite Hctx. reflexivity.
Qed.

(** C1. For every resource R, after [set(R)]: [get()] returns R, the scheme
    key holds R's scheme, the filename key the basename and the extension
    key the extname of R's file-system path ([fsPath] in the source), the
    resource-set key is true, and [isFileSystemResourceOrUntitled] holds
    [isFileSystemResource] or-ed with "the scheme is untitled". *)
Theorem set_publishes_resource (R : URI) (w : World) :
  ∃ w',
    ResourceContextKey.set (val R) w = Normal tt w' ∧
    ResourceContextKey.get w' = Normal (val R) w' ∧
    resourceScheme (facts w') = val (scheme R) ∧
    resourceFilename (facts w') = val (basename (fsPath R)) ∧
    resourceExtname (facts w') = val (extname (fsPath R)) ∧
    resourceSet (facts w') = val true ∧
    isFileSystemResource (facts w') = val (canHandle w R) ∧
    isFileSystemResourceOrUntitled (facts w') =
      val (is_truthy (isFileSystemResource (facts w'))
           || String.eqb (scheme R) "untitled").
Proof.
  destruct (set_effect (val R) w)
    as (w' & Hrun & Hres & Hsch & Hfile & _ & Hext & Hset & Hfs & Hinv & _).
  exists w'. cbn in *.
  repeat split; try assumption.
  - unfold ResourceContextKey.get, key_get, gets. cbn. now rewrite Hres.
  - unfold I2 in Hinv. rewrite Hinv, Hsch. reflexivity.
Qed.

(** C3. While a resource R is held, a notification of changed provider
    registrations re-derives [isFileSystemResource] from the file service's
    current answer for R and [isFileSystemResourceOrUntitled] from it and
    the stored scheme; these two keys are the only ones written, and the
    resource, scheme, filename, language and extension keys keep their
    values. *)
Theorem notification_rederives_file_system_keys
    (R : URI) (answer : URI -> bool) (w : World) :
  reachable w ->
  resource (facts w) = val R ->
  ∃ w',
    ResourceContextKey.registrationsChanged answer w = Normal tt w' ∧
    isFileSystemResource (facts w') = val (answer R) ∧
    isFileSystemResourceOrUntitled (facts w') =
      val (answer R || strict_eq (resourceScheme (facts w)) "untitled") ∧
    resource (facts w') = resource (facts w) ∧
    resourceScheme (facts w') = resourceScheme (facts w) ∧
    resourceFilename (facts w') = resourceFilename (facts w) ∧
    resourceLangId (facts w') = resourceLangId (facts w) ∧
    resourceExtname (facts w') = resourceExtname (facts w) ∧
    writes w' = (writes w ++
      ["isFileSystemResource"; "isFileSystemResourceOrUntitled"])%list.
Proof.
  intros Hreach Hheld.
  destruct (reachable_live w Hreach) as [Hn _].
  rewrite registrationsChanged_attached by assumption.
  destruct (listener_effect (with_canHandle answer w))
    as (w' & Hrun & Hfs & Hinv & Hres & Hsch & Hfile & Hlang & Hext & _
        & Hwr & _).
  cbn in *. rewrite Hheld in Hfs. cbn in Hfs.
  exists w'. repeat split; try assumption.
  unfold I2 in Hinv. rewrite Hinv, Hfs, Hsch. now destruct (answer R).
Qed.

(** C5. For every resource R, after [set(R)] and then [reset()], the
    scheme, language, resource, extension and resource-set keys are at
    their declared defaults, while the filename key and the two
    file-system keys still hold what they held just before [reset()]. *)
Theorem reset_after_set_keeps_three_keys (R : URI) (w : World) :
  ∃ w1 w2,
    ResourceContextKey.set (val R) w = Normal tt w1 ∧
    ResourceContextKey.reset w1 = Normal tt w2 ∧
    resourceScheme (facts w2) = defaultValue ResourceContextKey.Scheme ∧
    resourceLangId (facts w2) = defaultValue ResourceContextKey.LangId ∧
    resource (facts w2) = defaultValue ResourceContextKey.Resource ∧
    resourceExtname (facts w2) =
      defaultValue ResourceContextKey.Extension ∧
    resourceSet (facts w2) = defaultValue ResourceContextKey.HasResource ∧
    resourceFilename (facts w2) = resourceFilename (facts w1) ∧
    isFileSystemResource (facts w2) = isFileSystemResource (facts w1) ∧
    isFileSystemResourceOrUntitled (facts w2) =
      isFileSystemResourceOrUntitled (facts w1) ∧
    resourceFilename (facts w1) = val (basename (fsPath R)) ∧
    isFileSystemResource (facts w1) = val (canHandle w R).
Proof.
  destruct (set_effect (val R) w)
    as (w1 & Hset & _ & _ & Hfile & _ & _ & _ & Hfs & _).
  destruct (reset_effect w1)
    as (w2 & Hreset & Hsch & Hlang & Hres & Hext & Hhas & Hf & Hi & Ho & _).
  exists w1, w2. cbn in *. repeat split; assumption.
Qed.

(** C6. [set] called with an absent resource throws nothing; it leaves the
    resource, scheme, filename, language and extension keys absent and the
    resource-set key false. *)
Theorem set_absent_clears (value : nullable URI) (w : World) :
  absent value ->
  ∃ w',
    ResourceContextKey.set value w = Normal tt w' ∧
    absent (resource (facts w')) ∧
    absent (resourceScheme (facts w')) ∧
    absent (resourceFilename (facts w')) ∧
    absent (resourceLangId (facts w')) ∧
    absent (resourceExtname (facts w')) ∧
    resourceSet (facts w') = val false.
Proof.
  intros Habs.
  destruct (set_effect value w)
    as (w' & Hrun & Hres & Hsch & Hfile & Hlang & Hext & Hset & _).
  exists w'. rewrite Hres, Hsch, Hfile, Hlang, Hext, Hset.
  destruct value; cbn in *; tauto.
Qed.

(** C10. After [set] with an absent resource the file service has not been
    asked anything, [isFileSystemResource] has been written and holds an
    absent value, which is not its declared default [false], and
    [isFileSystemResourceOrUntitled] holds [false]. *)
Theorem set_absent_skips_file_service (value : nullable URI) (w : World) :
  absent value ->
  ∃ w',
    ResourceContextKey.set value w = Normal tt w' ∧
    queries w' = queries w ∧
    In "isFileSystemResource" (skipn (List.length (writes w)) (writes w')) ∧
    absent (isFileSystemResource (facts w')) ∧
    isFileSystemResource (facts w') ≠
      defaultValue ResourceContextKey.IsFileSystemResource ∧
    isFileSystemResourceOrUntitled (facts w') = val false.
Proof.
  intros Habs.
  destruct (set_effect value w)
    as (w' & Hrun & _ & Hsch & _ & _ & _ & _ & Hfs & Hinv & Hwr & Hq & _).
  exists w'. unfold I2 in Hinv. rewrite Hinv, Hfs, Hsch, Hwr.
  rewrite skipn_app, skipn_all, Nat.sub_diag.
  destruct value; cbn in *; try tauto; intuition discriminate.
Qed.

(** C7. Once a reachable instance is disposed, whatever is called on it
    afterwards, a notification of changed provider registrations completes
    without writing any key: the log of writes and the stored values are
    what they were before the notification. *)
Theorem no_write_after_dispose (w : World) (later : list Op) :
  reachable w ->
  ∃ w1 w2,
    dispose w = Normal tt w1 ∧
    writes w1 = writes w ∧
    forEach later run w1 = Normal tt w2 ∧
    ∀ answer, ∃ w3,
      ResourceContextKey.registrationsChanged answer w2 = Normal tt w3 ∧
      writes w3 = writes w2 ∧
      facts w3 = facts w2.
Proof.
  intros Hreach.
  destruct (dispose_effect w Hreach) as (w1 & Hrun & Hn & _ & _ & Hwr).
  destruct (forEach_detached later w1 Hn) as (w2 & Hlater & Hn2).
  exists w1, w2. repeat split; try assumption.
  intros answer. exists (with_canHandle answer w2).
  rewrite registrationsChanged_detached by assumption.
  repeat split.
Qed.

(** C2, where the code departs from it.  Invariant I2 does not survive
    [reset()]: after constructing, setting an untitled resource no
    provider handles and resetting, the world is reachable and
    [isFileSystemResourceOrUntitled] still holds [true] while
    [isFileSystemResource] is [false] and the scheme key is cleared. *)
Theorem I2_lost_on_reset :
  ∃ w,
    reachable w ∧
    isFileSystemResourceOrUntitled (facts w) = val true ∧
    isFileSystemResource (facts w) = val false ∧
    resourceScheme (facts w) = undefined ∧
    ¬ I2 (facts w).
Proof.
  set (w0 := after ResourceContextKey.constructor (boot no_provider)).
  set (w1 := after (ResourceContextKey.set (val an_untitled)) w0).
  exists (after ResourceContextKey.reset w1).
  split; [|unfold I2; vm_compute; repeat split; discriminate].
  apply (reachable_step CallReset w1); [|vm_compute; reflexivity].
  apply (reachable_step (CallSet (val an_untitled)) w0);
    [|vm_compute; reflexivity].
  apply (reachable_new no_provider). vm_compute; reflexivity.
Qed.

(** C4, where the code departs from it.  [reset()] does not bring the keys
    back to their construction-time values: after [set(R)] on a fresh
    instance and [reset()], the filename key still holds R's basename. *)
Theorem reset_leaves_filename (R : URI) (answer : URI -> bool) :
  ∃ w0 w1 w2,
    ResourceContextKey.constructor (boot answer) = Normal tt w0 ∧
    ResourceContextKey.set (val R) w0 = Normal tt w1 ∧
    ResourceContextKey.reset w1 = Normal tt w2 ∧
    resourceFilename (facts w0) = undefined ∧
    resourceFilename (facts w2) = val (basename (fsPath R)) ∧
    facts w2 ≠ facts w0.
Proof.
  destruct (constructor_effect answer) as (w0 & Hnew & Hctx & _).
  destruct (set_effect (val R) w0)
    as (w1 & Hset & _ & _ & Hfile & _).
  destruct (reset_effect w1)
    as (w2 & Hreset & _ & _ & _ & _ & _ & Hf & _).
  exists w0, w1, w2. cbn in *.
  assert (Hkept : resourceFilename (facts w2) = val (basename (fsPath R)))
    by congruence.
  repeat split; try assumption.
  - now rewrite Hctx.
  - intros Heq. rewrite Heq, Hctx in Hkept. discriminate.
Qed.

End ResourceContextKeyFacts.

(** The class run on concrete resources. *)

Lemma holding_a_file_reachable :
  reachable (paths := test_paths) (modeService := test_modes) holding_a_file.
Proof.
  apply (reachable_step (CallSet (val a_file)) fresh);
    [|vm_compute; reflexivity].
  apply (reachable_new no_provider). vm_compute; reflexivity.
Qed.

Lemma notification_rederives_file_system_keys_witness :
  ∃ w',
    ResourceContextKey.registrationsChanged file_only holding_a_file
      = Normal tt w' ∧
    isFileSystemResource (facts w') = val true ∧
    isFileSystemResourceOrUntitled (facts w') = val true ∧
    resourceFilename (facts w') = val "a.ts".
Proof.
  destruct (notification_rederives_file_system_keys
              (paths := test_paths) (modeService := test_modes)
              a_file file_only holding_a_file
              holding_a_file_reachable eq_refl)
    as (w' & Hrun & Hfs & Hor & _ & _ & Hfile & _).
  exists w'. repeat split; assumption.
Defined.

Lemma set_absent_clears_witness :
  ∃ w',
    ResourceContextKey.set (paths := test_paths) (modeService := test_modes)
      null holding_a_file = Normal tt w' ∧
    resource (facts w') = null ∧
    resourceSet (facts w') = val false.
Proof.
  destruct (set_absent_clears (paths := test_paths)
              (modeService := test_modes) null holding_a_file I)
    as (w' & Hrun & _ & _ & _ & _ & _ & Hset).
  exists w'. split; [assumption|]. split; [|assumption].
  vm_compute in Hrun. injection Hrun as <-. reflexivity.
Defined.

Lemma set_absent_skips_file_service_witness :
  ∃ w',
    ResourceContextKey.set (paths := test_paths) (modeService := test_modes)
      undefined holding_a_file = Normal tt w' ∧
    queries w' = [a_file] ∧
    isFileSystemResourceOrUntitled (facts w') = val false.
Proof.
  destruct (set_absent_skips_file_service (paths := test_paths)
              (modeService := test_modes) undefined holding_a_file I)
    as (w' & Hrun & Hq & _ & _ & _ & Hor).
  exists w'. repeat split; assumption.
Defined.

Lemma no_write_after_dispose_witness :
  ∃ w1 w2,
    dispose holding_a_file = Normal tt w1 ∧
    forEach [CallSet (val an_untitled); CallReset]
      (run (paths := test_paths) (modeService := test_modes)) w1
      = Normal tt w2 ∧
    ∃ w3,
      ResourceContextKey.registrationsChanged file_only w2 = Normal tt w3 ∧
      writes w3 = writes w2 ∧
      facts w3 = facts w2.
Proof.
  destruct (no_write_after_dispose (paths := test_paths)
              (modeService := test_modes) holding_a_file
              [CallSet (val an_untitled); CallReset]
              holding_a_file_reachable)
    as (w1 & w2 & Hrun & _ & Hlater & Hquiet).
  exists w1, w2. repeat split; try assumption. apply (Hquiet file_only).
Defined.

(** * Properties of [DataUri.parseMetaData] *)

Section DataUriFacts.
Import JsString DataUri Reference.

Lemma append_empty (s : string) : EmptyString ++ s = s.
Proof. reflexivity. Qed.

Lemma append_String (x : ascii) (s t : string) :
  String x s ++ t = String x (s ++ t).
Proof. reflexivity. Qed.

Lemma append_assoc (a b c : string) : (a ++ b) ++ c = a ++ b ++ c.
Proof.
  induction a as [|x a IH].
  - now rewrite !append_empty.
  - rewrite !append_String. now rewrite IH.
Qed.

Lemma length_append (a b : string) :
  String.length (a ++ b) = String.length a + String.length b.
Proof.
  induction a as [|x a IH].
  - now rewrite append_empty.
  - rewrite append_String. simpl. now rewrite IH.
Qed.

Lemma substring_prefix (b c : string) :
  String.substring 0 (String.length b) (b ++ c) = b.
Proof.
  induction b as [|x b IH].
  - rewrite append_empty. now destruct c.
  - rewrite append_String. simpl. now rewrite IH.
Qed.

Lemma substring_middle (a b c : string) :
  String.substring (String.length a) (String.length b) (a ++ b ++ c) = b.
Proof.
  induction a as [|x a IH].
  - rewrite append_empty. apply substring_prefix.
  - rewrite append_String. exact IH.
Qed.

(** [substring] between two positions in range and in order cuts out the
    middle part. *)
Lemma js_substring_middle (a b c : string) :
  substring (a ++ b ++ c) (Z.of_nat (String.length a))
    (Z.of_nat (String.length a + String.length b)) = b.
Proof.
  unfold substring. rewrite !length_append.
  set (la := String.length a). set (lb := String.length b).
  set (lc := String.length c).
  replace (Z.min (Z.max (Z.of_nat la) 0) (Z.of_nat (la + (lb + lc))))
    with (Z.of_nat la) by lia.
  replace (Z.min (Z.max (Z.of_nat (la + lb)) 0) (Z.of_nat (la + (lb + lc))))
    with (Z.of_nat (la + lb)) by lia.
  replace (Z.min (Z.of_nat la) (Z.of_nat (la + lb))) with (Z.of_nat la) by lia.
  replace (Z.max (Z.of_nat la) (Z.of_nat (la + lb)) - Z.of_nat la)%Z
    with (Z.of_nat lb) by lia.
  rewrite !Nat2Z.id. apply substring_middle.
Qed.

(** [substring(i + 1, i)]: the indices are swapped, the result is the
    code unit at [i]. *)
Lemma js_substring_swapped (a : string) (x : ascii) (c : string) :
  substring (a ++ String x c) (Z.of_nat (String.length a) + 1)
    (Z.of_nat (String.length a)) = String x EmptyString.
Proof.
  unfold substring. rewrite length_append. cbn [String.length].
  set (la := String.length a). set (lc := String.length c).
  replace (Z.min (Z.max (Z.of_nat la + 1) 0) (Z.of_nat (la + S lc)))
    with (Z.of_nat (la + 1)) by lia.
  replace (Z.min (Z.max (Z.of_nat la) 0) (Z.of_nat (la + S lc)))
    with (Z.of_nat la) by lia.
  replace (Z.min (Z.of_nat (la + 1)) (Z.of_nat la)) with (Z.of_nat la) by lia.
  replace (Z.max (Z.of_nat (la + 1)) (Z.of_nat la) - Z.of_nat la)%Z
    with (Z.of_nat 1) by lia.
  rewrite !Nat2Z.id.
  change (String x c) with (String x EmptyString ++ c).
  apply (substring_middle a (String x EmptyString) c).
Qed.

(** [substring(0, -1)]: the negative index is clamped to 0. *)
Lemma js_substring_none (s : string) :
  substring s 0 (-1) = EmptyString.
Proof.
  unfold substring.
  replace (Z.min (Z.max (-1) 0) (Z.of_nat (String.length s))) with 0%Z by lia.
  replace (Z.min (Z.max 0 0) (Z.of_nat (String.length s))) with 0%Z by lia.
  now destruct s.
Qed.

(** The structural cuts agree with the index searches. *)
Lemma cut_first_None (c : ascii) (s : string) :
  cut_first c s = None -> find_first c s = None.
Proof.
  induction s as [|a s IH]; cbn; [reflexivity|].
  destruct (Ascii.eqb a c); [discriminate|].
  destruct (cut_first c s) as [[l r]|]; [discriminate|].
  intros _. now rewrite IH.
Qed.

Lemma cut_first_Some (c : ascii) (s l r : string) :
  cut_first c s = Some (l, r) ->
  find_first c s = Some (String.length l) ∧ s = l ++ String c r.
Proof.
  revert l. induction s as [|a s IH]; cbn; intros l; [discriminate|].
  destruct (Ascii.eqb_spec a c) as [->|Hne].
  - intros [= <- <-]. auto.
  - destruct (cut_first c s) as [[l' r']|]; [|discriminate].
    intros [= <- <-]. destruct (IH l' eq_refl) as [-> ->]. auto.
Qed.

Lemma cut_last_None (c : ascii) (s : string) :
  cut_last c s = None -> find_last c s = None ∧ find_first c s = None.
Proof.
  induction s as [|a s IH]; cbn; [auto|].
  destruct (cut_last c s) as [[l r]|]; [discriminate|].
  destruct (IH eq_refl) as [-> ->].
  destruct (Ascii.eqb a c); [discriminate | auto].
Qed.

Lemma cut_last_Some (c : ascii) (s l r : string) :
  cut_last c s = Some (l, r) ->
  find_last c s = Some (String.length l) ∧ s = l ++ String c r.
Proof.
  revert l. induction s as [|a s IH]; cbn; intros l; [discriminate|].
  destruct (cut_last c s) as [[l' r']|] eqn:E.
  - intros [= <- <-]. destruct (IH l' eq_refl) as [-> ->]. auto.
  - destruct (cut_last_None c s E) as [-> _].
    destruct (Ascii.eqb_spec a c) as [->|Hne]; [|discriminate].
    intros [= <- <-]. auto.
Qed.

(** The last [c] of a string that has a first one is the last [c] of what
    follows the first, or the first itself. *)
Lemma find_last_after_first (c : ascii) (s l r : string) :
  cut_first c s = Some (l, r) ->
  find_last c s =
    match cut_last c r with
    | Some (m, _) => Some (String.length l + 1 + String.length m)
    | None => Some (String.length l)
    end.
Proof.
  revert l r. induction s as [|a s IH]; cbn; intros l r; [discriminate|].
  destruct (Ascii.eqb_spec a c) as [->|Hne].
  - intros [= <- <-]. cbn.
    destruct (cut_last c s) as [[m t]|] eqn:E.
    + destruct (cut_last_Some c s m t E) as [-> _]. reflexivity.
    + destruct (cut_last_None c s E) as [-> _]. reflexivity.
  - destruct (cut_first c s) as [[l' r']|]; [|discriminate].
    intros [= <- <-]. rewrite (IH l' r' eq_refl). cbn.
    now destruct (cut_last c r') as [[m t]|].
Qed.

(** The callback of the source is the insertion step of the reference,
    reading the first two pieces. *)
Lemma addProperty_insert_token (m : gmap string string) (token : string) :
  addProperty m token = insert_token first_two_pieces m token.
Proof.
  unfold addProperty, insert_token, first_two_pieces, at_index.
  destruct (split token ":") as [|k [|v rest]]; cbn; try reflexivity.
  unfold truthy. now destruct k, v.
Qed.

Lemma foldl_addProperty (l : list string) (m : gmap string string) :
  foldl addProperty m l = foldl (insert_token first_two_pieces) m l.
Proof.
  revert m. induction l as [|t l IH]; intros m; cbn; [reflexivity|].
  now rewrite addProperty_insert_token, IH.
Qed.

Lemma truthy_nonempty (s : string) : truthy s = nonempty s.
Proof. now destruct s. Qed.

(** The region the source cuts out of the path yields the same entries as
    the part strictly between the first and the last [;]. *)
Lemma meta_region (p : string) (m : gmap string string) :
  foldl addProperty m
    (split (substring p (indexOf p ";" + 1) (lastIndexOf p ";")) ";") =
  foldl addProperty m (split (between p) ";").
Proof.
  unfold between, indexOf, lastIndexOf.
  destruct (cut_first ";" p) as [[l r]|] eqn:E.
  - destruct (cut_first_Some _ _ _ _ E) as [Hfirst Hp].
    rewrite Hfirst, (find_last_after_first _ _ _ _ E).
    destruct (cut_last ";" r) as [[mid t]|] eqn:E'.
    + destruct (cut_last_Some _ _ _ _ E') as [_ Hr].
      rewrite Hp, Hr.
      replace (l ++ String ";" (mid ++ String ";" t))
        with ((l ++ String ";" EmptyString) ++ mid ++ String ";" t)
        by now rewrite append_assoc.
      replace (Z.of_nat (String.length l) + 1)%Z
        with (Z.of_nat (String.length (l ++ String ";" EmptyString)))
        by (rewrite length_append; cbn; lia).
      replace (Z.of_nat (String.length l + 1 + String.length mid))
        with (Z.of_nat (String.length (l ++ String ";" EmptyString)
                        + String.length mid))
        by (rewrite length_append; cbn; lia).
      now rewrite js_substring_middle.
    + rewrite Hp, js_substring_swapped. reflexivity.
  - rewrite (cut_first_None _ _ E).
    destruct (find_last ";" p) eqn:El.
    + exfalso. clear -E El.
      induction p as [|a p IH] in n, E, El |- *; cbn in *; [discriminate|].
      destruct (Ascii.eqb a ";"); [discriminate|].
      destruct (cut_first ";" p) as [[? ?]|]; [discriminate|].
      destruct (find_last ";" p); [eauto | discriminate].
    + change (-1 + 1)%Z with 0%Z. now rewrite js_substring_none.
Qed.

Lemma mime_region (p : string) :
  substring p 0 (indexOf p ";") = mime p.
Proof.
  unfold mime, indexOf.
  destruct (cut_first ";" p) as [[l r]|] eqn:E.
  - destruct (cut_first_Some _ _ _ _ E) as [-> ->].
    change (l ++ String ";" r) with (EmptyString ++ l ++ String ";" r).
    apply (js_substring_middle EmptyString l).
  - rewrite (cut_first_None _ _ E). apply js_substring_none.
Qed.

Lemma find_first_None_cut (c : ascii) (s : string) :
  find_first c s = None -> cut_first c s = None.
Proof.
  intros Hnone. destruct (cut_first c s) as [[l r]|] eqn:E; [|reflexivity].
  destruct (cut_first_Some c s l r E) as [Hsome _]. congruence.
Qed.

Lemma indexOf_absent (s : string) (c : ascii) :
  indexOf s c = (-1)%Z -> find_first c s = None.
Proof.
  unfold indexOf. destruct (find_first c s); [lia | reflexivity].
Qed.

(** A string without the separator splits to itself. *)
Lemma split_without_separator (s : string) (c : ascii) :
  find_first c s = None -> split s c = [s].
Proof.
  induction s as [|a s IH]; cbn; [reflexivity|].
  destruct (Ascii.eqb a c); [discriminate|].
  destruct (find_first c s); [discriminate|].
  intros _. now rewrite IH.
Qed.

Lemma split_nonempty (s : string) (c : ascii) : split s c ≠ [].
Proof.
  destruct s as [|a s]; cbn; [discriminate|].
  destruct (Ascii.eqb a c); [discriminate|].
  destruct (split s c); discriminate.
Qed.

Lemma addProperty_malformed (m : gmap string string) (property : string) :
  malformed property -> addProperty m property = m.
Proof.
  unfold malformed, addProperty, at_index.
  destruct (split property ":") as [|k [|v rest]]; cbn; try reflexivity.
  intros [[= ->]|[[=]|[= ->]]]; cbn; [reflexivity|].
  now rewrite andb_false_r.
Qed.

(** C8, as the source has it.  For every data URI, [parseMetaData] returns
    the mapping of the three-step algorithm in which step 2 splits the
    token on every [:] and takes the first two pieces as key and value:
    the tokens are those of the part strictly between the first and the
    last [;], a token is kept when key and value are both non-empty, a
    later key overwrites an earlier one, and the part before the first
    [;], when non-empty, is stored under [mime]. *)
Theorem parseMetaData_amended_correct (dataUri : URI) :
  parseMetaData dataUri = parseMetaData_amended (path dataUri).
Proof.
  unfold parseMetaData, parseMetaData_amended, parse, META_DATA_MIME.
  rewrite meta_region, mime_region, truthy_nonempty, foldl_addProperty.
  reflexivity.
Qed.

End DataUriFacts.

(** C8, as the specification words it, fails on a value that contains a
    [:]: the source keeps the piece before the second [:], splitting once
    keeps everything after the first. *)
Lemma parseMetaData_split_once_counterexample :
  DataUri.parseMetaData (data_uri "image/png;label:a:b;base64,AAA")
    !! "label" = Some "a" ∧
  Reference.parseMetaData_spec "image/png;label:a:b;base64,AAA"
    !! "label" = Some "a:b" ∧
  DataUri.parseMetaData (data_uri "image/png;label:a:b;base64,AAA")
    ≠ Reference.parseMetaData_spec
        (path (data_uri "image/png;label:a:b;base64,AAA")).
Proof.
  assert (Hcode : DataUri.parseMetaData
                    (data_uri "image/png;label:a:b;base64,AAA")
                    !! "label" = Some "a") by (vm_compute; reflexivity).
  assert (Hspec : Reference.parseMetaData_spec "image/png;label:a:b;base64,AAA"
                    !! "label" = Some "a:b") by (vm_compute; reflexivity).
  repeat split; try assumption.
  intros Heq. cbn [path data_uri] in Heq. rewrite Heq in Hcode.
  rewrite Hcode in Hspec. discriminate.
Qed.

(** * Further properties of [ResourceContextKey] *)

Section ResourceContextKeyMore.
Context {paths : Paths} {modeService : IModeService}.

Ltac unfold_ops :=
  unfold ResourceContextKey.set, ResourceContextKey.reset,
    ResourceContextKey.get, ResourceContextKey.constructor,
    ResourceContextKey.registrationsChanged,
    ResourceContextKey.onDidChangeFileSystemProviderRegistrations,
    dispose, fire, bindTo, subscribe, _register, canHandleResource,
    key_reset, key_set, key_get, member, js_and, js_or, not_not,
    modify, gets, throw,
    mbind, M_bind, bind, mret, M_ret, ret.

Lemma FactSet_eq (c d : FactSet) :
  resourceScheme c = resourceScheme d ->
  resourceFilename c = resourceFilename d ->
  resourceLangId c = resourceLangId d ->
  resource c = resource d ->
  resourceExtname c = resourceExtname d ->
  resourceSet c = resourceSet d ->
  isFileSystemResource c = isFileSystemResource d ->
  isFileSystemResourceOrUntitled c = isFileSystemResourceOrUntitled d ->
  c = d.
Proof. destruct c, d; cbn; intros; congruence. Qed.

(** [set] leaves exactly the facts derived from its argument. *)
Lemma set_derived (value : nullable URI) (w : World) :
  ∃ w',
    ResourceContextKey.set value w = Normal tt w' ∧
    facts w' = derived value (canHandle w).
Proof.
  destruct (set_effect value w)
    as (w' & Hrun & Hres & Hsch & Hfile & Hlang & Hext & Hset & Hfs & Hinv
        & _).
  exists w'. split; [assumption|].
  apply FactSet_eq; cbn; try assumption.
  unfold I2 in Hinv. rewrite Hinv, Hfs, Hsch.
  destruct value as [| |u]; cbn; [reflexivity | reflexivity |].
  now destruct (canHandle w u).
Qed.

(** The queries the listener makes. *)
Lemma listener_queries (w : World) :
  ∃ w',
    ResourceContextKey.onDidChangeFileSystemProviderRegistrations w
      = Normal tt w' ∧
    queries w' =
      (queries w ++
       match resource (facts w) with val u => [u] | _ => [] end)%list.
Proof.
  unfold_ops.
  destruct w as [c ws f qs n ds]; cbn.
  destruct (resource c) as [| |u] eqn:E; cbn; rewrite ?E.
  - eexists; split; [reflexivity|]. cbn. now rewrite app_nil_r.
  - eexists; split; [reflexivity|]. cbn. now rewrite app_nil_r.
  - destruct (f u); cbn; eexists; split; reflexivity.
Qed.

(** What every reachable world satisfies: the scheme, language, extension
    and resource-set keys follow the resource key; and while a resource is
    held the filename and the two file-system keys follow it too, under
    the file service's current answer. *)
Lemma reachable_invariant (w : World) :
  reachable w ->
  resourceScheme (facts w) =
    on_present (resource (facts w)) (fun u => val (scheme u)) ∧
  resourceLangId (facts w) =
    on_present (resource (facts w))
      (fun u => getModeIdByFilepathOrFirstLine (fsPath u)) ∧
  resourceExtname (facts w) =
    on_present (resource (facts w)) (fun u => val (extname (fsPath u))) ∧
  resourceSet (facts w) = val (not_not (resource (facts w))) ∧
  (∃ b, isFileSystemResourceOrUntitled (facts w) = val b) ∧
  (∀ R, resource (facts w) = val R ->
        facts w = derived (val R) (canHandle w)).
Proof.
  induction 1 as [answer w Hnew | op w w' Hreach IH Hstep].
  - destruct (constructor_effect answer) as (w0 & Hrun & Hctx & _).
    assert (w = w0) as -> by congruence.
    rewrite Hctx. cbn. repeat split; eauto. discriminate.
  - destruct IH as (IHs & IHl & IHe & IHh & IHb & IHheld).
    destruct (reachable_live w Hreach) as [Hn _].
    destruct op as [value| |answer]; cbn in Hstep.
    + destruct (set_derived value w) as (w0 & Hrun & Hd).
      assert (w' = w0) as -> by congruence.
      destruct (set_effect value w)
        as (w1 & Hrun1 & _ & _ & _ & _ & _ & _ & _ & _ & _ & _ & Hcan & _).
      assert (w1 = w0) as -> by congruence.
      rewrite Hd, Hcan. cbn. repeat split; eauto.
      intros R ->. reflexivity.
    + destruct (reset_effect w)
        as (w0 & Hrun & Hsch & Hlang & Hres & Hext & Hhas & _ & _ & Hor & _).
      assert (w' = w0) as -> by congruence.
      rewrite Hsch, Hlang, Hres, Hext, Hhas, Hor. cbn.
      repeat split; eauto. discriminate.
    + rewrite registrationsChanged_attached in Hstep by assumption.
      destruct (listener_effect (with_canHandle answer w))
        as (w0 & Hrun & Hfs & Hinv & Hres & Hsch & Hfile & Hlang & Hext
            & Hhas & _ & Hcan & _).
      assert (w' = w0) as -> by congruence.
      cbn in *. rewrite Hres, Hsch, Hlang, Hext, Hhas.
      repeat split; try assumption.
      * unfold I2 in Hinv. rewrite Hinv. eauto.
      * intros R HR. specialize (IHheld R HR).
        rewrite HR in Hfs. cbn in Hfs.
        apply FactSet_eq; rewrite ?Hcan; cbn;
          rewrite ?Hsch, ?Hfile, ?Hlang, ?Hext, ?Hhas, ?Hres, ?IHheld; cbn;
          try reflexivity; try assumption.
        unfold I2 in Hinv. rewrite Hinv, Hfs, Hsch, IHheld. cbn.
        now destruct (answer R).
Qed.

(** X1. The facts [set] leaves do not depend on what was stored before:
    two worlds in which the file service answers alike hold the same eight
    facts after [set] with the same argument. *)
Theorem set_forgets_previous_facts (value : nullable URI) (w1 w2 : World) :
  canHandle w1 = canHandle w2 ->
  ∃ w1' w2',
    ResourceContextKey.set value w1 = Normal tt w1' ∧
    ResourceContextKey.set value w2 = Normal tt w2' ∧
    facts w1' = facts w2'.
Proof.
  intros Hcan.
  destruct (set_derived value w1) as (w1' & Hrun1 & Hd1).
  destruct (set_derived value w2) as (w2' & Hrun2 & Hd2).
  exists w1', w2'. repeat split; try assumption. congruence.
Qed.

(** X2. In every reachable state the scheme, language, extension and
    resource-set keys are the ones derived from the stored resource, and
    [isFileSystemResourceOrUntitled] holds a boolean. *)
Theorem resource_keys_in_sync (w : World) :
  reachable w ->
  resourceScheme (facts w) =
    on_present (resource (facts w)) (fun u => val (scheme u)) ∧
  resourceLangId (facts w) =
    on_present (resource (facts w))
      (fun u => getModeIdByFilepathOrFirstLine (fsPath u)) ∧
  resourceExtname (facts w) =
    on_present (resource (facts w)) (fun u => val (extname (fsPath u))) ∧
  resourceSet (facts w) = val (not_not (resource (facts w))) ∧
  ∃ b, isFileSystemResourceOrUntitled (facts w) = val b.
Proof.
  intros Hreach.
  destruct (reachable_invariant w Hreach) as (Hs & Hl & He & Hh & Hb & _).
  auto.
Qed.

(** X3. In every reachable state that holds a resource R, all eight facts
    are the ones derived from R under the file service's current answer:
    in particular [isFileSystemResource] is never stale. *)
Theorem held_resource_facts_current (R : URI) (w : World) :
  reachable w ->
  resource (facts w) = val R ->
  facts w = derived (val R) (canHandle w) ∧
  isFileSystemResource (facts w) = val (canHandle w R) ∧
  resourceFilename (facts w) = val (basename (fsPath R)).
Proof.
  intros Hreach Hheld.
  destruct (reachable_invariant w Hreach) as (_ & _ & _ & _ & _ & Hall).
  specialize (Hall R Hheld). rewrite Hall. cbn. auto.
Qed.

(** X4. While no resource is held, a notification of changed provider
    registrations does not ask the file service anything: it stores the
    absent resource value in [isFileSystemResource] and [false] in
    [isFileSystemResourceOrUntitled], which restores invariant I2. *)
Theorem notification_without_resource (answer : URI -> bool) (w : World) :
  reachable w ->
  absent (resource (facts w)) ->
  ∃ w',
    ResourceContextKey.registrationsChanged answer w = Normal tt w' ∧
    queries w' = queries w ∧
    absent (isFileSystemResource (facts w')) ∧
    isFileSystemResourceOrUntitled (facts w') = val false ∧
    I2 (facts w').
Proof.
  intros Hreach Habs.
  destruct (reachable_live w Hreach) as [Hn _].
  destruct (reachable_invariant w Hreach) as (Hs & _).
  rewrite registrationsChanged_attached by assumption.
  destruct (listener_effect (with_canHandle answer w))
    as (w' & Hrun & Hfs & Hinv & _ & Hsch & _).
  destruct (listener_queries (with_canHandle answer w)) as (w0 & Hrun0 & Hq).
  assert (w0 = w') as -> by congruence.
  exists w'. cbn in *. split; [assumption|].
  unfold I2 in *. rewrite Hinv, Hfs, Hsch, Hs, Hq.
  destruct (resource (facts w)); cbn in *; try tauto;
    rewrite app_nil_r; auto.
Qed.

(** X5. A held untitled resource always counts as file-system-or-untitled,
    whatever the file service answers. *)
Theorem untitled_always_counts (R : URI) (w : World) :
  reachable w ->
  resource (facts w) = val R ->
  scheme R = Schemas.untitled ->
  isFileSystemResourceOrUntitled (facts w) = val true.
Proof.
  intros Hreach Hheld Hscheme.
  destruct (reachable_invariant w Hreach) as (_ & _ & _ & _ & _ & Hall).
  rewrite (Hall R Hheld). cbn. rewrite Hscheme. cbn.
  now rewrite orb_true_r.
Qed.

(** X6. The file service is asked once per [set] of a present resource,
    about that resource, and once per notification while a resource is
    held, about the held one; [reset], [set] of an absent value and a
    notification while nothing is held ask nothing. *)
Theorem file_service_queries (op : Op) (w w' : World) :
  reachable w ->
  run op w = Normal tt w' ->
  queries w' = (queries w ++ asked op (resource (facts w)))%list.
Proof.
  intros Hreach Hstep.
  destruct (reachable_live w Hreach) as [Hn _].
  destruct op as [value| |answer]; cbn in Hstep.
  - destruct (set_effect value w)
      as (w0 & Hrun & _ & _ & _ & _ & _ & _ & _ & _ & _ & Hq & _).
    assert (w' = w0) as -> by congruence.
    rewrite Hq. destruct value; cbn; now rewrite ?app_nil_r.
  - destruct (reset_effect w)
      as (w0 & Hrun & _ & _ & _ & _ & _ & _ & _ & _ & Hq & _).
    assert (w' = w0) as -> by congruence.
    rewrite Hq. cbn. now rewrite app_nil_r.
  - rewrite registrationsChanged_attached in Hstep by assumption.
    destruct (listener_queries (with_canHandle answer w)) as (w0 & Hrun & Hq).
    assert (w' = w0) as -> by congruence.
    exact Hq.
Qed.

(** X7. Construction completes with every key at its declared default, so
    that [get()] returns [undefined] and I2 holds, with one listener
    attached and its disposable registered, and without asking the file
    service anything. *)
Theorem constructor_initial_state (answer : URI -> bool) :
  ∃ w,
    ResourceContextKey.constructor (boot answer) = Normal tt w ∧
    facts w = defaults ∧
    ResourceContextKey.get w = Normal undefined w ∧
    I2 (facts w) ∧
    listeners w = 1 ∧
    _toDispose w = [RemoveListener] ∧
    queries w = [] ∧
    canHandle w = answer.
Proof.
  unfold_ops. cbn. eexists. repeat split.
Qed.

(** X8. No operation throws, in any world and for any argument: [set],
    [reset] and the listener complete normally, and [get] returns the
    stored resource without changing anything. *)
Theorem operations_never_throw (value : nullable URI) (w : World) :
  (∃ w', ResourceContextKey.set value w = Normal tt w') ∧
  (∃ w', ResourceContextKey.reset w = Normal tt w') ∧
  (∃ w', ResourceContextKey.onDidChangeFileSystemProviderRegistrations w
           = Normal tt w') ∧
  ResourceContextKey.get w = Normal (resource (facts w)) w.
Proof.
  destruct (set_effect value w) as (w1 & H1 & _).
  destruct (reset_effect w) as (w2 & H2 & _).
  destruct (listener_effect w) as (w3 & H3 & _).
  repeat split; eauto.
Qed.

(** X13. A second notification under the same registrations changes no
    fact: the listener only re-derives what the first one stored. *)
Theorem notification_idempotent (answer : URI -> bool) (w : World) :
  reachable w ->
  ∃ w1 w2,
    ResourceContextKey.registrationsChanged answer w = Normal tt w1 ∧
    ResourceContextKey.registrationsChanged answer w1 = Normal tt w2 ∧
    facts w2 = facts w1.
Proof.
  intros Hreach.
  destruct (reachable_live w Hreach) as [Hn _].
  destruct (listener_effect (with_canHandle answer w))
    as (w1 & Hrun1 & Hfs1 & Hinv1 & Hres1 & Hsch1 & _ & _ & _ & _ & _
        & Hcan1 & Hn1 & _).
  destruct (listener_effect (with_canHandle answer w1))
    as (w2 & Hrun2 & Hfs2 & Hinv2 & Hres2 & Hsch2 & Hfile2 & Hlang2 & Hext2
        & Hhas2 & _).
  cbn in *. exists w1, w2.
  rewrite !registrationsChanged_attached by congruence.
  repeat split; try assumption.
  assert (Hfs : isFileSystemResource (facts w2)
                = isFileSystemResource (facts w1))
    by (rewrite Hfs2, Hfs1, Hres1; reflexivity).
  apply FactSet_eq; try assumption.
  unfold I2 in *. now rewrite Hinv2, Hinv1, Hfs, Hsch2.
Qed.

End ResourceContextKeyMore.

Lemma after_reset_reachable :
  reachable (paths := test_paths) (modeService := test_modes) after_reset.
Proof.
  apply (reachable_step CallReset holding_a_file);
    [|vm_compute; reflexivity].
  apply holding_a_file_reachable.
Qed.

Lemma holding_untitled_reachable :
  reachable (paths := test_paths) (modeService := test_modes)
    holding_untitled.
Proof.
  apply (reachable_step (CallSet (val an_untitled))
           (after ResourceContextKey.constructor (boot file_only)));
    [|vm_compute; reflexivity].
  apply (reachable_new file_only). vm_compute; reflexivity.
Qed.

Lemma set_forgets_previous_facts_witness :
  ∃ w1' w2',
    ResourceContextKey.set (paths := test_paths) (modeService := test_modes)
      (val an_untitled) fresh = Normal tt w1' ∧
    ResourceContextKey.set (paths := test_paths) (modeService := test_modes)
      (val an_untitled) after_reset = Normal tt w2' ∧
    facts w1' = facts w2'.
Proof.
  apply (set_forgets_previous_facts (paths := test_paths)
           (modeService := test_modes) (val an_untitled) fresh after_reset).
  vm_compute. reflexivity.
Defined.

Lemma resource_keys_in_sync_witness :
  resourceScheme (facts after_reset) = undefined ∧
  resourceSet (facts after_reset) = val false.
Proof.
  destruct (resource_keys_in_sync (paths := test_paths)
              (modeService := test_modes) after_reset after_reset_reachable)
    as (Hs & _ & _ & Hh & _).
  split; [exact Hs | exact Hh].
Defined.

Lemma held_resource_facts_current_witness :
  isFileSystemResource (facts holding_a_file) = val false ∧
  resourceFilename (facts holding_a_file) = val "a.ts".
Proof.
  destruct (held_resource_facts_current (paths := test_paths)
              (modeService := test_modes) a_file holding_a_file
              holding_a_file_reachable)
    as (_ & Hfs & Hfile).
  - vm_compute. reflexivity.
  - split; [exact Hfs | exact Hfile].
Defined.

Lemma notification_without_resource_witness :
  ∃ w',
    ResourceContextKey.registrationsChanged file_only after_reset
      = Normal tt w' ∧
    queries w' = queries after_reset ∧
    isFileSystemResourceOrUntitled (facts w') = val false.
Proof.
  destruct (notification_without_resource (paths := test_paths)
              (modeService := test_modes) file_only after_reset
              after_reset_reachable)
    as (w' & Hrun & Hq & _ & Hor & _).
  - vm_compute. exact I.
  - exists w'. auto.
Defined.

Lemma untitled_always_counts_witness :
  isFileSystemResourceOrUntitled (facts holding_untitled) = val true.
Proof.
  apply (untitled_always_counts (paths := test_paths)
           (modeService := test_modes) an_untitled holding_untitled
           holding_untitled_reachable).
  - vm_compute. reflexivity.
  - reflexivity.
Defined.

Lemma file_service_queries_witness :
  queries (after (ResourceContextKey.registrationsChanged file_only)
             holding_a_file) = [a_file; a_file].
Proof.
  rewrite (file_service_queries (paths := test_paths)
             (modeService := test_modes) (Notify file_only) holding_a_file
             (after (ResourceContextKey.registrationsChanged file_only)
                holding_a_file) holding_a_file_reachable).
  - vm_compute. reflexivity.
  - vm_compute. reflexivity.
Defined.

Lemma notification_idempotent_witness :
  ∃ w1 w2,
    ResourceContextKey.registrationsChanged file_only holding_a_file
      = Normal tt w1 ∧
    ResourceContextKey.registrationsChanged file_only w1 = Normal tt w2 ∧
    facts w2 = facts w1.
Proof.
  apply (notification_idempotent (paths := test_paths)
           (modeService := test_modes) file_only holding_a_file
           holding_a_file_reachable).
Defined.

(** * Further properties of [DataUri.parseMetaData] *)

Section DataUriMore.
Import JsString DataUri Reference.

Lemma find_first_at_separator (c : ascii) (l r : string) :
  find_first c (l ++ String c r) ≠ None.
Proof.
  induction l as [|x l IH].
  - rewrite append_empty. cbn. now rewrite Ascii.eqb_refl.
  - rewrite append_String. cbn.
    destruct (Ascii.eqb x c); [discriminate|].
    destruct (find_first c (l ++ String c r)); [discriminate | contradiction].
Qed.

Lemma without_cut_last (c : ascii) (s : string) :
  without c s -> cut_last c s = None.
Proof.
  intros Hs. destruct (cut_last c s) as [[l r]|] eqn:E; [|reflexivity].
  destruct (cut_last_Some c s l r E) as [_ ->].
  now apply find_first_at_separator in Hs.
Qed.

Lemma without_String (c x : ascii) (s : string) :
  without c (String x s) <-> Ascii.eqb x c = false ∧ without c s.
Proof.
  unfold without. cbn. destruct (Ascii.eqb x c); [split; [discriminate|]|].
  - now intros [? _].
  - destruct (find_first c s); split; try discriminate; auto.
    now intros [_ ?].
Qed.

Lemma without_append (c : ascii) (a b : string) :
  without c a -> without c b -> without c (a ++ b).
Proof.
  intros Ha Hb. induction a as [|x a IH].
  - now rewrite append_empty.
  - rewrite append_String. apply without_String in Ha as [Hx Ha].
    apply without_String. auto.
Qed.

Lemma cut_first_append (c : ascii) (a p : string) :
  cut_first c (a ++ String c p) =
  match cut_first c a with
  | Some (l, r) => Some (l, r ++ String c p)
  | None => Some (a, p)
  end.
Proof.
  induction a as [|x a IH].
  - rewrite append_empty. cbn. now rewrite Ascii.eqb_refl.
  - rewrite append_String. cbn. destruct (Ascii.eqb x c); [reflexivity|].
    rewrite IH. now destruct (cut_first c a) as [[l r]|].
Qed.

Lemma cut_last_append (c : ascii) (a p : string) :
  without c p -> cut_last c (a ++ String c p) = Some (a, p).
Proof.
  intros Hp. induction a as [|x a IH].
  - rewrite append_empty. cbn.
    now rewrite (without_cut_last c p Hp), Ascii.eqb_refl.
  - rewrite append_String. cbn. now rewrite IH.
Qed.

Lemma cut_first_left_without (c : ascii) (s l r : string) :
  cut_first c s = Some (l, r) -> without c l.
Proof.
  revert l. induction s as [|x s IH]; cbn; intros l; [discriminate|].
  destruct (Ascii.eqb x c) eqn:Ex.
  - now intros [= <- <-].
  - destruct (cut_first c s) as [[l' r']|]; [|discriminate].
    intros [= <- <-]. apply without_String. split; [assumption|].
    now apply IH.
Qed.

(** The text before the payload decides the region and the mime type. *)
Lemma between_before_payload (a p : string) :
  without ";" p ->
  between (a ++ String ";" p) =
  match cut_first ";" a with
  | Some (_, r) => r
  | None => EmptyString
  end.
Proof.
  intros Hp. unfold between. rewrite cut_first_append.
  destruct (cut_first ";" a) as [[l r]|].
  - now rewrite cut_last_append.
  - now rewrite without_cut_last.
Qed.

Lemma mime_before_payload (a p : string) :
  mime (a ++ String ";" p) =
  match cut_first ";" a with
  | Some (l, _) => l
  | None => a
  end.
Proof.
  unfold mime. rewrite cut_first_append.
  now destruct (cut_first ";" a) as [[l r]|].
Qed.

(** Splitting at the first separator. *)
Lemma split_at_separator (c : ascii) (a s : string) :
  without c a -> split (a ++ String c s) c = a :: split s c.
Proof.
  intros Ha. induction a as [|x a IH].
  - rewrite append_empty. cbn. now rewrite Ascii.eqb_refl.
  - rewrite append_String. apply without_String in Ha as [Hx Ha].
    cbn. rewrite Hx, (IH Ha). reflexivity.
Qed.

Lemma split_pieces_without_separator (c : ascii) (s : string) :
  Forall (without c) (split s c).
Proof.
  induction s as [|x s IH]; cbn.
  - repeat constructor.
  - destruct (Ascii.eqb x c) eqn:Ex.
    + constructor; [reflexivity | assumption].
    + destruct (split s c) as [|piece pieces].
      * repeat constructor. apply without_String. now split.
      * inversion IH as [|? ? Hpiece Hpieces]; subst.
        constructor; [|assumption]. apply without_String. now split.
Qed.

Lemma split_pieces_avoid (d c : ascii) (s : string) :
  without d s -> Forall (without d) (split s c).
Proof.
  induction s as [|x s IH]; cbn; intros Hs.
  - repeat constructor.
  - apply without_String in Hs as [Hx Hs]. specialize (IH Hs).
    destruct (Ascii.eqb x c).
    + constructor; [reflexivity | assumption].
    + destruct (split s c) as [|piece pieces].
      * repeat constructor. apply without_String. now split.
      * inversion IH as [|? ? Hpiece Hpieces]; subst.
        constructor; [|assumption]. apply without_String. now split.
Qed.

(** The text of one or more properties ends in a [;]; what precedes it
    splits back into the properties. *)
Lemma properties_text_body (properties : list string) :
  properties ≠ [] ->
  Forall (without ";") properties ->
  ∃ body,
    properties_text properties = body ++ String ";" EmptyString ∧
    split body ";" = properties.
Proof.
  induction properties as [|p ps IH]; [congruence|].
  intros _ Hall. inversion Hall as [|? ? Hp Hps]; subst.
  destruct ps as [|q ps].
  - exists p. cbn. split; [reflexivity|].
    now apply split_without_separator.
  - destruct (IH ltac:(discriminate) Hps) as (body & Htext & Hsplit).
    exists (p ++ String ";" body). split.
    + cbn [properties_text] in *. rewrite Htext.
      now rewrite append_assoc, append_String.
    + rewrite split_at_separator by assumption. now rewrite Hsplit.
Qed.

(** On a path of the documented shape the callback sees exactly the
    properties. *)
Lemma meta_of_data_path (mime_type payload : string)
    (properties : list string) (m : gmap string string) :
  without ";" mime_type ->
  without ";" payload ->
  Forall (without ";") properties ->
  foldl addProperty m
    (split (between (data_path mime_type properties payload)) ";") =
  foldl addProperty m properties.
Proof.
  intros Hm Hp Hall. unfold data_path.
  destruct properties as [|p ps].
  - cbn [properties_text]. rewrite append_empty.
    rewrite between_before_payload by assumption.
    now rewrite (find_first_None_cut _ _ Hm).
  - destruct (properties_text_body (p :: ps) ltac:(discriminate) Hall)
      as (body & Htext & Hsplit).
    unfold between. rewrite cut_first_append.
    rewrite (find_first_None_cut _ _ Hm).
    rewrite Htext, append_assoc, append_String, append_empty.
    rewrite cut_last_append by assumption.
    now rewrite Hsplit.
Qed.

Lemma truthy_plain (s : string) : plain s -> truthy s = true.
Proof. intros [Hne _]. now destruct s. Qed.

Lemma addProperty_plain (m : gmap string string) (kv : string * string) :
  plain kv.1 -> plain kv.2 ->
  addProperty m (property_text kv) = store m kv.
Proof.
  destruct kv as [k v]. cbn. intros Hk Hv.
  unfold addProperty, property_text, store. cbn.
  destruct Hk as (Hk0 & _ & Hk2). destruct Hv as (Hv0 & _ & Hv2).
  rewrite split_at_separator by assumption.
  rewrite split_without_separator by assumption. cbn.
  rewrite !truthy_nonempty. now destruct k, v.
Qed.

Lemma foldl_addProperty_plain (kvs : list (string * string))
    (m : gmap string string) :
  Forall (fun kv => plain kv.1 ∧ plain kv.2) kvs ->
  foldl addProperty m (map property_text kvs) = foldl store m kvs.
Proof.
  intros Hall. revert m.
  induction Hall as [|kv kvs [Hk Hv] _ IH]; intros m; cbn; [reflexivity|].
  now rewrite addProperty_plain, IH.
Qed.

Lemma property_text_without (kv : string * string) :
  plain kv.1 -> plain kv.2 -> without ";" (property_text kv).
Proof.
  intros (_ & Hk & _) (_ & Hv & _). unfold property_text.
  apply without_append; [assumption|].
  apply without_String. now split.
Qed.

Lemma addProperty_entries (m : gmap string string) (property : string) :
  without ";" property ->
  (∀ k v, m !! k = Some v -> token_entry k v) ->
  ∀ k v, addProperty m property !! k = Some v -> token_entry k v.
Proof.
  intros Hprop Hm k v. unfold addProperty, at_index.
  pose proof (split_pieces_without_separator ":" property) as Hcolon.
  pose proof (split_pieces_avoid ";" ":" property Hprop) as Hsemi.
  destruct (split property ":") as [|key [|value rest]]; cbn; try apply Hm.
  destruct (truthy key && truthy value) eqn:Htruthy; [|apply Hm].
  apply andb_true_iff in Htruthy as [Hkey Hvalue].
  rewrite lookup_insert. case_decide as Heq; [|apply Hm].
  intros [= <-]. subst k.
  inversion Hcolon as [|? ? Hc1 Hc]; subst.
  inversion Hc as [|? ? Hc2 _]; subst.
  inversion Hsemi as [|? ? Hs1 Hs]; subst.
  inversion Hs as [|? ? Hs2 _]; subst.
  repeat split; try assumption.
  - intros ->. discriminate.
  - intros ->. discriminate.
Qed.

Lemma foldl_addProperty_entries (properties : list string)
    (m : gmap string string) :
  Forall (without ";") properties ->
  (∀ k v, m !! k = Some v -> token_entry k v) ->
  ∀ k v, foldl addProperty m properties !! k = Some v -> token_entry k v.
Proof.
  intros Hall. revert m.
  induction Hall as [|p ps Hp _ IH]; intros m Hm; cbn; [exact Hm|].
  apply IH. now apply addProperty_entries.
Qed.

(** X9. Round trip on the documented shape.  For a path
    [MIME;k1:v1;...;kn:vn;PAYLOAD] whose mime type and payload contain no
    [;] and whose keys and values are non-empty and contain neither [;]
    nor [:], [parseMetaData] returns the pairs, a later pair overwriting an
    earlier one with the same key, with the mime type stored last under
    [mime] when it is non-empty. *)
Theorem parseMetaData_round_trip (dataUri : URI) (mime_type payload : string)
    (kvs : list (string * string)) :
  path dataUri = data_path mime_type (map property_text kvs) payload ->
  without ";" mime_type ->
  without ";" payload ->
  Forall (fun kv => plain kv.1 ∧ plain kv.2) kvs ->
  parseMetaData dataUri =
  if truthy mime_type
  then <[META_DATA_MIME := mime_type]> (foldl store ∅ kvs)
  else foldl store ∅ kvs.
Proof.
  intros Hpath Hm Hp Hall.
  assert (Hprops : Forall (without ";") (map property_text kvs)).
  { apply Forall_map. eapply Forall_impl; [exact Hall|].
    intros kv [Hk Hv]. now apply property_text_without. }
  unfold parseMetaData. rewrite meta_region, mime_region, Hpath.
  rewrite meta_of_data_path by assumption.
  rewrite foldl_addProperty_plain by assumption.
  unfold data_path.
  rewrite mime_before_payload, (find_first_None_cut _ _ Hm).
  reflexivity.
Qed.

(** X10. Every entry [parseMetaData] returns has a non-empty key and a
    non-empty value, neither contains a [;], no key contains a [:], and
    only the value stored under [mime] can contain a [:]. *)
Theorem parseMetaData_entries_well_formed (dataUri : URI) (k v : string) :
  parseMetaData dataUri !! k = Some v ->
  k ≠ EmptyString ∧ v ≠ EmptyString ∧
  without ";" k ∧ without ";" v ∧ without ":" k ∧
  (k ≠ META_DATA_MIME -> without ":" v).
Proof.
  unfold parseMetaData. rewrite mime_region.
  set (meta := substring _ _ _).
  assert (Htokens : ∀ k v,
            foldl addProperty ∅ (split meta ";") !! k = Some v ->
            token_entry k v).
  { apply foldl_addProperty_entries.
    - apply split_pieces_without_separator.
    - intros k' v'. rewrite lookup_empty. discriminate. }
  assert (Hweaken : ∀ k v, token_entry k v ->
            k ≠ EmptyString ∧ v ≠ EmptyString ∧
            without ";" k ∧ without ";" v ∧ without ":" k ∧
            (k ≠ META_DATA_MIME -> without ":" v)).
  { unfold token_entry. intuition. }
  destruct (truthy (mime (path dataUri))) eqn:Htruthy.
  - rewrite lookup_insert. case_decide as Heq.
    + intros [= <-]. subst k.
      repeat split; try reflexivity; try discriminate.
      * intros Hempty. rewrite Hempty in Htruthy. discriminate.
      * unfold mime in *.
        destruct (cut_first ";" (path dataUri)) as [[l r]|] eqn:E;
          [|discriminate].
        now apply (cut_first_left_without _ _ _ _ E).
      * congruence.
    + intros Hlookup. now apply Hweaken, Htokens.
  - intros Hlookup. now apply Hweaken, Htokens.
Qed.

(** X11. What follows the last [;] is never read: two paths that differ
    only after their last [;] have the same metadata. *)
Theorem parseMetaData_ignores_payload (d1 d2 : URI) (a p1 p2 : string) :
  path d1 = a ++ String ";" p1 ->
  path d2 = a ++ String ";" p2 ->
  without ";" p1 ->
  without ";" p2 ->
  parseMetaData d1 = parseMetaData d2.
Proof.
  intros H1 H2 Hp1 Hp2. unfold parseMetaData.
  rewrite !meta_region, !mime_region, H1, H2.
  rewrite !between_before_payload by assumption.
  rewrite !mime_before_payload. reflexivity.
Qed.

(** X12. A non-empty text before the first [;] is always what [mime] maps
    to, also when a property of the path is itself named [mime]. *)
Theorem parseMetaData_mime_wins (dataUri : URI) (prefix rest : string) :
  path dataUri = prefix ++ String ";" rest ->
  prefix ≠ EmptyString ->
  without ";" prefix ->
  parseMetaData dataUri !! META_DATA_MIME = Some prefix.
Proof.
  intros Hpath Hne Hprefix. unfold parseMetaData.
  rewrite mime_region, Hpath, mime_before_payload.
  rewrite (find_first_None_cut _ _ Hprefix).
  replace (truthy prefix) with true by (now destruct prefix).
  apply lookup_insert_eq.
Qed.

End DataUriMore.

Lemma parseMetaData_round_trip_witness :
  DataUri.parseMetaData (data_uri documented_path) =
  <["mime" := "image/png"]>
    (<["description" := "SomeDescription"]>
       (<["label" := "SomeLabel"]> (<["size" := "2313"]> ∅))).
Proof.
  apply (parseMetaData_round_trip (data_uri documented_path) "image/png"
           "base64,77+9UE5"
           [("size", "2313"); ("label", "SomeLabel");
            ("description", "SomeDescription")]).
  - reflexivity.
  - reflexivity.
  - reflexivity.
  - repeat constructor; cbn; discriminate.
Defined.

Lemma parseMetaData_entries_well_formed_witness :
  without ";" "SomeLabel" ∧ without ":" "SomeLabel".
Proof.
  destruct (parseMetaData_entries_well_formed (data_uri documented_path)
              "label" "SomeLabel")
    as (_ & _ & _ & Hsemi & _ & Hcolon).
  - vm_compute. reflexivity.
  - split; [exact Hsemi | apply Hcolon; discriminate].
Defined.

Lemma parseMetaData_ignores_payload_witness :
  DataUri.parseMetaData (data_uri "image/png;size:2313;base64,AAA") =
  DataUri.parseMetaData (data_uri "image/png;size:2313;base64,BBBB").
Proof.
  apply (parseMetaData_ignores_payload _ _ "image/png;size:2313"
           "base64,AAA" "base64,BBBB"); reflexivity.
Defined.

Lemma parseMetaData_mime_wins_witness :
  DataUri.parseMetaData (data_uri "text/plain;mime:other;base64,AAA")
    !! "mime" = Some "text/plain".
Proof.
  apply (parseMetaData_mime_wins _ "text/plain" "mime:other;base64,AAA").
  - reflexivity.
  - discriminate.
  - reflexivity.
Defined.

(** * Properties skipped by [DataUri.parseMetaData] *)

Section DataUriTolerance.
Import JsString DataUri Reference.

Lemma cut_last_prepend (c : ascii) (a p : string) :
  cut_last c (a ++ String c p) =
  match cut_last c p with
  | Some (m, t) => Some (a ++ String c m, t)
  | None => Some (a, p)
  end.
Proof.
  induction a as [|x a IH].
  - rewrite append_empty. cbn.
    destruct (cut_last c p) as [[m t]|]; [reflexivity|].
    now rewrite Ascii.eqb_refl.
  - rewrite append_String. cbn. rewrite IH.
    now destruct (cut_last c p) as [[m t]|].
Qed.

Lemma split_append (c : ascii) (a b : string) :
  split (a ++ String c b) c = (split a c ++ split b c)%list.
Proof.
  induction a as [|x a IH].
  - rewrite append_empty. cbn. now rewrite Ascii.eqb_refl.
  - rewrite append_String. cbn. rewrite IH.
    destruct (Ascii.eqb x c); [reflexivity|].
    pose proof (split_nonempty a c) as Hne.
    destruct (split a c) as [|piece pieces]; [contradiction | reflexivity].
Qed.

(** The pieces of a split, read off the first separator. *)
Lemma split_cut_first (c : ascii) (s : string) :
  split s c =
  match cut_first c s with
  | Some (l, r) => l :: split r c
  | None => [s]
  end.
Proof.
  destruct (cut_first c s) as [[l r]|] eqn:E.
  - destruct (cut_first_Some c s l r E) as [_ ->].
    apply split_at_separator. now apply (cut_first_left_without c _ l r E).
  - apply split_without_separator. now apply cut_first_None.
Qed.

(** The test of the callback fails exactly on a property with a missing
    key or value. *)
Lemma malformed_missing (property : string) :
  malformed property <-> missing_key_or_value property.
Proof.
  unfold malformed, missing_key_or_value, value_text, at_index.
  rewrite (split_cut_first ":" property).
  destruct (cut_first ":" property) as [[k rest]|]; cbn.
  - rewrite (split_cut_first ":" rest).
    destruct (cut_first ":" rest) as [[v r2]|]; cbn.
    + split.
      * intros [[= ->]|[[=]|[= ->]]]; auto.
      * intros [->| ->]; auto.
    + split.
      * intros [[= ->]|[[=]|[= ->]]]; auto.
      * intros [->| ->]; auto.
  - split; auto.
Qed.

(** Taking a property with a missing key or value out of a path leaves the
    callback with the same result. *)
Lemma skip_in_region (pre property post : string)
    (m : gmap string string) :
  without ";" property ->
  malformed property ->
  foldl addProperty m
    (split (between (pre ++ String ";" (property ++ String ";" post))) ";") =
  foldl addProperty m (split (between (pre ++ String ";" post)) ";").
Proof.
  intros Hsemi Hbad. unfold between.
  rewrite !cut_first_append.
  destruct (cut_first ";" pre) as [[l r]|].
  - rewrite !cut_last_prepend.
    destruct (cut_last ";" post) as [[mid t]|].
    + rewrite !split_append, !foldl_app.
      rewrite (split_without_separator _ _ Hsemi). cbn.
      now rewrite addProperty_malformed.
    + rewrite split_append, foldl_app.
      rewrite (split_without_separator _ _ Hsemi). cbn.
      now rewrite addProperty_malformed.
  - rewrite cut_last_prepend.
    destruct (cut_last ";" post) as [[mid t]|].
    + rewrite split_at_separator by assumption. cbn.
      now rewrite addProperty_malformed.
    + rewrite (split_without_separator _ _ Hsemi). cbn.
      now rewrite addProperty_malformed.
Qed.

Lemma item_text_without (i : item) : item_ok i -> without ";" (item_text i).
Proof.
  destruct i as [property|kv]; cbn.
  - now intros [? _].
  - intros [Hk Hv]. now apply property_text_without.
Qed.

(** Over the items of a path the callback stores the pairs and nothing
    else. *)
Lemma foldl_addProperty_items (items : list item) (m : gmap string string) :
  Forall item_ok items ->
  foldl addProperty m (map item_text items) = foldl store m (item_pairs items).
Proof.
  intros Hall. revert m.
  induction Hall as [|i items Hi _ IH]; intros m; [reflexivity|].
  destruct i as [property|kv]; cbn in *.
  - destruct Hi as [_ Hmissing].
    rewrite addProperty_malformed by now apply malformed_missing.
    apply IH.
  - destruct Hi as [Hk Hv]. rewrite addProperty_plain by assumption.
    apply IH.
Qed.

(** C9. [parseMetaData] is a total function of the path, so no path makes
    it fail.  A path without [;] yields the empty mapping.  A property with
    a missing key or value (it has no [:], or nothing before its first
    [:], or nothing between that [:] and the next) is silently skipped:
    [parseMetaData] returns the same mapping as on the path without that
    property, wherever the property stands, and on a path whose items are
    such properties and well-formed pairs it returns exactly the pairs and
    the mime type.  This is the test the callback makes, so the callback
    leaves the mapping as it is on such a property. *)
Theorem parseMetaData_tolerant
    (dataUri shorter : URI) (m : gmap string string)
    (property pre post mime_type payload : string)
    (before following : list string) (items : list item) :
  (indexOf (path dataUri) ";" = (-1)%Z -> parseMetaData dataUri = ∅) ∧
  (indexOf property ":" = (-1)%Z -> missing_key_or_value property) ∧
  (path dataUri = pre ++ String ";" (property ++ String ";" post) ->
   path shorter = pre ++ String ";" post ->
   without ";" property ->
   missing_key_or_value property ->
   parseMetaData dataUri = parseMetaData shorter) ∧
  (path dataUri = data_path mime_type (map item_text items) payload ->
   without ";" mime_type ->
   without ";" payload ->
   Forall item_ok items ->
   parseMetaData dataUri =
   if truthy mime_type
   then <[META_DATA_MIME := mime_type]> (foldl store ∅ (item_pairs items))
   else foldl store ∅ (item_pairs items)) ∧
  (malformed property <-> missing_key_or_value property) ∧
  (malformed property ->
     addProperty m property = m ∧
     foldl addProperty m (before ++ property :: following) =
     foldl addProperty m (before ++ following)) ∧
  (indexOf property ":" = (-1)%Z -> malformed property).
Proof.
  assert (Hnocolon : indexOf property ":" = (-1)%Z -> malformed property).
  { intros Hno. apply indexOf_absent in Hno.
    unfold malformed. rewrite (split_without_separator _ _ Hno).
    right. left. reflexivity. }
  repeat apply conj.
  - intros Hno. apply indexOf_absent in Hno.
    unfold parseMetaData.
    rewrite meta_region, mime_region.
    unfold between, mime. rewrite (find_first_None_cut _ _ Hno).
    reflexivity.
  - intros Hno. now apply malformed_missing, Hnocolon.
  - intros Hlong Hshort Hsemi Hmissing.
    apply malformed_missing in Hmissing.
    unfold parseMetaData.
    rewrite !meta_region, !mime_region, Hlong, Hshort.
    rewrite skip_in_region by assumption.
    now rewrite !mime_before_payload.
  - intros Hpath Hm Hp Hall.
    assert (Hprops : Forall (without ";") (map item_text items)).
    { apply Forall_map. eapply Forall_impl; [exact Hall|].
      intros i. apply item_text_without. }
    unfold parseMetaData. rewrite meta_region, mime_region, Hpath.
    rewrite meta_of_data_path by assumption.
    rewrite foldl_addProperty_items by assumption.
    unfold data_path.
    rewrite mime_before_payload, (find_first_None_cut _ _ Hm).
    reflexivity.
  - apply malformed_missing.
  - apply malformed_missing.
  - intros Hbad. split; [now apply addProperty_malformed|].
    rewrite !foldl_app. cbn. now rewrite addProperty_malformed.
  - exact Hnocolon.
Qed.

End DataUriTolerance.

Lemma parseMetaData_tolerant_witness :
  DataUri.parseMetaData (data_uri "image/png") = ∅ ∧
  DataUri.parseMetaData (data_uri "m;z:1;k;p") =
  DataUri.parseMetaData (data_uri "m;z:1;p") ∧
  DataUri.parseMetaData (data_uri "m;:v;k:;k;z:1;a::b;p") =
  <["mime" := "m"]> (<["z" := "1"]> ∅) ∧
  DataUri.addProperty {[ "size" := "2313" ]} "label" = {[ "size" := "2313" ]}.
Proof.
  destruct (parseMetaData_tolerant (data_uri "image/png")
              (data_uri "image/png") {[ "size" := "2313" ]}
              "label" EmptyString EmptyString EmptyString EmptyString
              [] [] [])
    as (Hempty & _ & _ & _ & _ & Hskip & Hnocolon).
  destruct (parseMetaData_tolerant (data_uri "m;z:1;k;p")
              (data_uri "m;z:1;p") ∅ "k" "m;z:1" "p"
              EmptyString EmptyString [] [] [])
    as (_ & Hmissing & Hremove & _).
  destruct (parseMetaData_tolerant (data_uri "m;:v;k:;k;z:1;a::b;p")
              (data_uri "m") ∅ EmptyString EmptyString EmptyString "m" "p"
              [] []
              [inl ":v"; inl "k:"; inl "k"; inr ("z", "1"); inl "a::b"])
    as (_ & _ & _ & Hitems & _).
  split; [|split; [|split]].
  - apply Hempty. vm_compute. reflexivity.
  - apply Hremove.
    + reflexivity.
    + reflexivity.
    + reflexivity.
    + apply Hmissing. vm_compute. reflexivity.
  - apply Hitems.
    + reflexivity.
    + reflexivity.
    + reflexivity.
    + constructor; [split; [reflexivity | vm_compute; auto]|].
      constructor; [split; [reflexivity | vm_compute; auto]|].
      constructor; [split; [reflexivity | vm_compute; auto]|].
      constructor; [split; repeat split; discriminate|].
      constructor; [split; [reflexivity | vm_compute; auto]|].
      constructor.
  - apply Hskip, Hnocolon. vm_compute. reflexivity.
Defined.
